(** * The OAuth token store of strava-mcp ([StravaAuth], src/auth.ts)

    A shallow embedding of the class [StravaAuth] and of the part of its
    environment it talks to (the wall clock and the token endpoint reached
    through [fetch]), followed by the properties of the token life cycle.

    Modelling decisions, all visible in the definitions below:
    - a TypeScript [string] is a [string] (a sequence of bytes), a [number]
      holding a Unix time is a [Z] counting whole seconds (a number that
      is no integer, [NaN] among them, is outside the model);
    - every value has the type its TypeScript declaration gives it; the
      unchecked cast [as StravaTokenResponse] is taken at its word, so the
      body of a successful response is a [StravaTokenResponse].  The body
      of a failed one has no declared type ([any]): it is [null], or a
      value read for its [message];
    - an [async] method is a resumption: a tree of heap reads, heap writes
      and [await] points.  Running the tree with nothing in between the
      awaits is the sequential behaviour; interleaving two trees at their
      awaits is the behaviour under concurrent callers. *)

From Stdlib Require Import String Ascii ZArith List Bool Lia DecimalString.
Import ListNotations.
Local Open Scope string_scope.
Local Open Scope Z_scope.

(** ** Data model (src/types/strava.ts) *)

Record StravaTokens : Type := {
  accessToken : string;
  refreshToken : string;
  expiresAt : Z  (* Unix timestamp *)
}.

Record StravaTokenResponse : Type := {
  access_token : string;
  refresh_token : string;
  expires_at : Z;
  expires_in : Z;
  token_type : string
}.

(** The private fields of the class. *)
Record StravaAuth : Type := {
  clientId : string;
  clientSecret : string;
  tokens : option StravaTokens   (* StravaTokens | null *)
}.

(** [constructor(clientId, clientSecret)]; [tokens] starts as [null]. *)
Definition new_StravaAuth (clientId clientSecret : string) : StravaAuth :=
  {| clientId := clientId; clientSecret := clientSecret; tokens := None |}.

(** ** The environment: [fetch] and [Date.now] *)

(** The second argument of [fetch].  [body] is the object handed to
    [JSON.stringify], its keys in the order the literal lists them. *)
Record RequestInit : Type := {
  method : string;
  headers : list (string * string);
  body : list (string * string)
}.

Record Request : Type := {
  url : string;
  init : RequestInit
}.

(** An object read for its [message], as far as the code looks at it:
    [error.message], absent ([None]) or a string. *)
Record ErrorJson : Type := { message : option string }.

(** What the body of a failed response parses to.  The code gives it no
    type ([any]) and reads its [message]: on the JSON value [null] that
    read throws; any other JSON value is read as an object, one without a
    [message] when it has none (an object without the key, a number, a
    string, an array). *)
Inductive FailureBody : Type :=
| Body_null
| Body_object (error : ErrorJson).

(** A [Response], as far as the class reads it: whether [ok] holds (it
    does exactly for the statuses 200 to 299), [statusText], and what
    [json()] settles to, [None] standing for a body that is not JSON (the
    promise rejects). *)
Inductive Response : Type :=
| Response_ok (statusText : string) (json : option StravaTokenResponse)
| Response_not_ok (statusText : string) (json : option FailureBody).

(** What the promise returned by [fetch] settles to. *)
Inductive FetchOutcome : Type :=
| Rejects (reason : string)      (* network failure: a TypeError *)
| Resolves (r : Response).

(** The world outside the object: the clock in milliseconds, the requests
    sent so far (oldest first) and the remote side, which answers a request
    knowing every request sent up to and including it. *)
Record World : Type := {
  Date_now : Z;
  sent : list Request;
  server : list Request -> FetchOutcome
}.

Record Heap : Type := {
  this : StravaAuth;
  world : World
}.

Definition with_tokens (t : option StravaTokens) (h : Heap) : Heap :=
  {| this := {| clientId := clientId (this h);
                clientSecret := clientSecret (this h);
                tokens := t |};
     world := world h |}.

Definition with_sent (req : Request) (h : Heap) : Heap :=
  {| this := this h;
     world := {| Date_now := Date_now (world h);
                 sent := sent (world h) ++ [req];
                 server := server (world h) |} |}.

Definition with_elapsed (ms : Z) (h : Heap) : Heap :=
  {| this := this h;
     world := {| Date_now := Date_now (world h) + ms;
                 sent := sent (world h);
                 server := server (world h) |} |}.

(** ** Exceptions and completions *)

Inductive Exn : Type :=
| Error (msg : string)         (* new Error(msg) *)
| TypeError (msg : string)     (* fetch failed, property of null *)
| SyntaxError (msg : string).  (* response.json() on a non-JSON body *)

Inductive Completion (A : Type) : Type :=
| Normal (a : A)
| Throw (e : Exn).
Arguments Normal {A} a.
Arguments Throw {A} e.

(** ** Resumptions *)

Inductive Async (A : Type) : Type :=
| Done (c : Completion A)
| Get (k : Heap -> Async A)          (* read the heap *)
| Put (h : Heap) (p : Async A)       (* replace the heap *)
| Yield (p : Async A).               (* an await: other callers may run *)
Arguments Done {A} c.
Arguments Get {A} k.
Arguments Put {A} h p.
Arguments Yield {A} p.

Definition ret {A} (a : A) : Async A := Done (Normal a).
Definition throw {A} (e : Exn) : Async A := Done (Throw e).

Fixpoint bind {A B} (p : Async A) (f : A -> Async B) : Async B :=
  match p with
  | Done (Normal a) => f a
  | Done (Throw e) => Done (Throw e)
  | Get k => Get (fun h => bind (k h) f)
  | Put h p' => Put h (bind p' f)
  | Yield p' => Yield (bind p' f)
  end.

(** [p.catch(handler)] *)
Fixpoint catch {A} (p : Async A) (handler : Exn -> Async A) : Async A :=
  match p with
  | Done (Normal a) => Done (Normal a)
  | Done (Throw e) => handler e
  | Get k => Get (fun h => catch (k h) handler)
  | Put h p' => Put h (catch p' handler)
  | Yield p' => Yield (catch p' handler)
  end.

(** [await p]: [p] runs up to its settlement, the caller is suspended, and
    resumes with the value or the exception [p] settled to. *)
Fixpoint await {A} (p : Async A) : Async A :=
  match p with
  | Done c => Yield (Done c)
  | Get k => Get (fun h => await (k h))
  | Put h p' => Put h (await p')
  | Yield p' => Yield (await p')
  end.

Declare Scope async_scope.
Delimit Scope async_scope with async.
Notation "x <- p ;; q" := (bind p (fun x => q))
  (at level 61, p at next level, right associativity) : async_scope.
Notation "p ;; q" := (bind p (fun _ => q))
  (at level 61, right associativity) : async_scope.
Local Open Scope async_scope.

Definition read {A} (f : Heap -> A) : Async A := Get (fun h => ret (f h)).
Definition modify (f : Heap -> Heap) : Async unit := Get (fun h => Put (f h) (ret tt)).

(** The sequential reading: nothing else touches the heap at the awaits. *)
Fixpoint run {A} (p : Async A) (h : Heap) : Completion A * Heap :=
  match p with
  | Done c => (c, h)
  | Get k => run (k h) h
  | Put h' p' => run p' h'
  | Yield p' => run p' h
  end.

(** One turn of the event loop for a caller: up to its next await. *)
Fixpoint turn {A} (p : Async A) (h : Heap) : Async A * Heap :=
  match p with
  | Done c => (Done c, h)
  | Get k => turn (k h) h
  | Put h' p' => turn p' h'
  | Yield p' => (p', h)
  end.

(** ** Primitives of the platform *)

(** [fetch(url, init)]: the request leaves at the call; the promise settles
    to what the remote side answers. *)
Definition fetch (url : string) (init : RequestInit) : Async Response :=
  Get (fun h =>
    let req := {| url := url; init := init |} in
    Put (with_sent req h)
      match server (world h) (sent (world h) ++ [req]) with
      | Rejects reason => throw (TypeError reason)
      | Resolves r => ret r
      end).

(** [response.json()].  The text of the SyntaxError depends on the body;
    one text stands for all of them. *)
Definition response_json {A} (json : option A) : Async A :=
  match json with
  | Some v => ret v
  | None => throw (SyntaxError "Unexpected token")
  end.

(** [error.message]; the text of the TypeError is the engine's. *)
Definition message_of (error : FailureBody) : Completion (option string) :=
  match error with
  | Body_null => Throw (TypeError "Cannot read properties of null (reading 'message')")
  | Body_object error => Normal (message error)
  end.

(** [Math.floor(Date.now() / 1000)] *)
Definition now_seconds (w : World) : Z := Date_now w / 1000.

(** [m || d] on a possibly undefined string: the empty string is falsy. *)
Definition or_else (m : option string) (d : string) : string :=
  match m with
  | Some s => if (s =? "")%string then d else s
  | None => d
  end.

(** ** The class [StravaAuth] *)

Definition token_endpoint : string := "https://www.strava.com/oauth/token".

Definition setTokens (accessToken refreshToken : string) (expiresAt : Z) : Async unit :=
  modify (with_tokens (Some {| accessToken := accessToken;
                               refreshToken := refreshToken;
                               expiresAt := expiresAt |})).

Definition exchangeToken (code : string) : Async StravaTokens :=
  this_clientId <- read (fun h => clientId (this h)) ;;
  this_clientSecret <- read (fun h => clientSecret (this h)) ;;
  response <- await (fetch token_endpoint
    {| method := "POST";
       headers := [("Content-Type", "application/json")];
       body := [("client_id", this_clientId);
                ("client_secret", this_clientSecret);
                ("code", code);
                ("grant_type", "authorization_code")] |}) ;;
  match response with
  | Response_not_ok statusText json =>   (* if (!response.ok) *)
      error <- await (catch (response_json json)
                        (fun _ => ret (Body_object {| message := Some statusText |}))) ;;
      error_message <- Done (message_of error) ;;
      throw (Error ("Failed to exchange token: " ++ or_else error_message statusText))
  | Response_ok _ json =>
      data <- await (response_json json) ;;
      let tokens := {| accessToken := access_token data;
                       refreshToken := refresh_token data;
                       expiresAt := expires_at data |} in
      modify (with_tokens (Some tokens)) ;;
      ret tokens
  end.

Definition refreshAccessToken : Async StravaTokens :=
  this_tokens <- read (fun h => tokens (this h)) ;;
  match this_tokens with
  | None => throw (Error "No tokens available to refresh")
  | Some this_tokens =>
      this_clientId <- read (fun h => clientId (this h)) ;;
      this_clientSecret <- read (fun h => clientSecret (this h)) ;;
      response <- await (fetch token_endpoint
        {| method := "POST";
           headers := [("Content-Type", "application/json")];
           body := [("client_id", this_clientId);
                    ("client_secret", this_clientSecret);
                    ("refresh_token", refreshToken this_tokens);
                    ("grant_type", "refresh_token")] |}) ;;
      match response with
      | Response_not_ok statusText json =>   (* if (!response.ok) *)
          error <- await (catch (response_json json)
                            (fun _ => ret (Body_object {| message := Some statusText |}))) ;;
          error_message <- Done (message_of error) ;;
          throw (Error ("Failed to refresh token: " ++ or_else error_message statusText))
      | Response_ok _ json =>
          data <- await (response_json json) ;;
          let tokens := {| accessToken := access_token data;
                           refreshToken := refresh_token data;
                           expiresAt := expires_at data |} in
          modify (with_tokens (Some tokens)) ;;
          ret tokens
      end
  end.

Definition bufferTime : Z := 300. (* 5 minutes *)

Definition getValidAccessToken : Async string :=
  this_tokens <- read (fun h => tokens (this h)) ;;
  match this_tokens with
  | None => throw (Error "No tokens available. Please authenticate first.")
  | Some this_tokens =>
      now <- read (fun h => now_seconds (world h)) ;;
      (if expiresAt this_tokens <=? now + bufferTime
       then _ <- await refreshAccessToken ;; ret tt
       else ret tt) ;;
      this_tokens <- read (fun h => tokens (this h)) ;;
      match this_tokens with
      | Some this_tokens => ret (accessToken this_tokens)
      | None => throw (TypeError "Cannot read properties of null (reading 'accessToken')")
      end
  end.

Definition hasTokens : Async bool :=
  this_tokens <- read (fun h => tokens (this h)) ;;
  ret (match this_tokens with Some _ => true | None => false end).

(** *** [URLSearchParams] (the application/x-www-form-urlencoded serializer) *)

(** Bytes that are written as they are: the ASCII letters and digits and
    [*], [-], [.], [_]. *)
Definition urlencoded_safe (c : ascii) : bool :=
  let n := N_of_ascii c in
  ((n =? 42) || (n =? 45) || (n =? 46) || (n =? 95)
   || ((48 <=? n) && (n <=? 57))
   || ((65 <=? n) && (n <=? 90))
   || ((97 <=? n) && (n <=? 122)))%N.

Definition hex_digit (n : N) : ascii :=
  match String.get (N.to_nat n) "0123456789ABCDEF" with
  | Some c => c
  | None => "0"%char
  end.

Definition percent_encode (c : ascii) : string :=
  let n := N_of_ascii c in
  String "%" (String (hex_digit (n / 16)) (String (hex_digit (n mod 16)) "")).

Definition urlencoded_byte (c : ascii) : string :=
  if Ascii.eqb c " " then "+"
  else if urlencoded_safe c then String c ""
  else percent_encode c.

Fixpoint urlencoded_serialize (s : string) : string :=
  match s with
  | EmptyString => ""
  | String c s' => urlencoded_byte c ++ urlencoded_serialize s'
  end.

(** [new URLSearchParams(record).toString()] *)
Definition URLSearchParams_toString (params : list (string * string)) : string :=
  String.concat "&"
    (map (fun p => urlencoded_serialize (fst p) ++ "=" ++ urlencoded_serialize (snd p))
         params).

Definition default_scope : string :=
  "read,activity:read_all,activity:write,profile:read_all".

Definition authorize_endpoint : string := "https://www.strava.com/oauth/authorize".

(** [scope = None] is a call that leaves the second argument out. *)
Definition getAuthorizationUrl (redirectUri : string) (scope : option string) : Async string :=
  let scope := match scope with Some s => s | None => default_scope end in
  this_clientId <- read (fun h => clientId (this h)) ;;
  let params := [("client_id", this_clientId);
                 ("redirect_uri", redirectUri);
                 ("response_type", "code");
                 ("scope", scope)] in
  ret (authorize_endpoint ++ "?" ++ URLSearchParams_toString params).

(** ** Histories of calls on one object *)

Inductive Call : Type :=
| Call_setTokens (accessToken refreshToken : string) (expiresAt : Z)
| Call_exchangeToken (code : string)
| Call_refreshAccessToken
| Call_getValidAccessToken
| Call_getAuthorizationUrl (redirectUri : string) (scope : option string)
| Call_hasTokens.

(** A call, its result dropped. *)
Definition invoke (c : Call) : Async unit :=
  match c with
  | Call_setTokens a r e => setTokens a r e
  | Call_exchangeToken code => _ <- exchangeToken code ;; ret tt
  | Call_refreshAccessToken => _ <- refreshAccessToken ;; ret tt
  | Call_getValidAccessToken => _ <- getValidAccessToken ;; ret tt
  | Call_getAuthorizationUrl r s => _ <- getAuthorizationUrl r s ;; ret tt
  | Call_hasTokens => _ <- hasTokens ;; ret tt
  end.

(** What happens to the object over time: a call runs to its end (its
    exception, if any, is the caller's business), or time passes. *)
Inductive Event : Type :=
| Invoke (c : Call)
| Elapse (ms : Z).

Definition event_step (h : Heap) (ev : Event) : Heap :=
  match ev with
  | Invoke c => snd (run (invoke c) h)
  | Elapse ms => with_elapsed ms h
  end.

Definition run_events (evs : list Event) (h : Heap) : Heap :=
  fold_left event_step evs h.

(** ** The spec's vocabulary, read off the code *)

(** The request [refreshAccessToken] sends for the object [a] holding [t]. *)
Definition refresh_request (a : StravaAuth) (t : StravaTokens) : Request :=
  {| url := token_endpoint;
     init := {| method := "POST";
                headers := [("Content-Type", "application/json")];
                body := [("client_id", clientId a);
                         ("client_secret", clientSecret a);
                         ("refresh_token", refreshToken t);
                         ("grant_type", "refresh_token")] |} |}.

(** The request [exchangeToken code] sends for the object [a]. *)
Definition exchange_request (a : StravaAuth) (code : string) : Request :=
  {| url := token_endpoint;
     init := {| method := "POST";
                headers := [("Content-Type", "application/json")];
                body := [("client_id", clientId a);
                         ("client_secret", clientSecret a);
                         ("code", code);
                         ("grant_type", "authorization_code")] |} |}.

(** The Credential a token response carries. *)
Definition credential_of (d : StravaTokenResponse) : StravaTokens :=
  {| accessToken := access_token d;
     refreshToken := refresh_token d;
     expiresAt := expires_at d |}.

(** The answer of the remote side to [req], sent from heap [h]. *)
Definition answer (h : Heap) (req : Request) : FetchOutcome :=
  server (world h) (sent (world h) ++ [req]).

(** The spec's three error kinds are plain [Error]s told apart by their
    message. *)
Definition NoCredentialError (e : Exn) : Prop :=
  e = Error "No tokens available. Please authenticate first." \/
  e = Error "No tokens available to refresh".



(** The message of a failed response: the body's [message] when the body is
    JSON and has a non-empty one, the status text otherwise.  The body
    [null] cannot be read for a message: there is none. *)
Definition server_message (statusText : string) (json : option FailureBody) : option string :=
  match json with
  | Some Body_null => None
  | Some (Body_object error) => Some (or_else (message error) statusText)
  | None => Some statusText
  end.

(** What a method throws for a failed response: the error it makes of the
    server's message, or the TypeError of reading [message] off [null]. *)
Definition failure_of (make : string -> Exn) (statusText : string) (json : option FailureBody)
  : Exn :=
  match server_message statusText json with
  | Some m => make m
  | None => TypeError "Cannot read properties of null (reading 'message')"
  end.

(** A request of the refresh grant. *)
Definition is_refresh (req : Request) : bool :=
  existsb (fun kv => (fst kv =? "grant_type")%string && (snd kv =? "refresh_token")%string)
          (body (init req)).

Definition refreshes_sent (h : Heap) : nat :=
  length (filter is_refresh (sent (world h))).

(** [n] turns of one caller with nobody else running. *)
Fixpoint turns {A} (n : nat) (p : Async A) (h : Heap) : Async A * Heap :=
  match n with
  | O => (p, h)
  | S n' => turns n' (fst (turn p h)) (snd (turn p h))
  end.

(** ** Two concurrent callers *)

(** Two calls of [getValidAccessToken] on the one object.  A call that has
    not started yet is the whole tree; its first turn runs it up to its
    first await. *)
Record Pool : Type := {
  first : Async string;
  second : Async string;
  heap : Heap
}.

(** What the event loop does next: resume one of the callers for a turn,
    or let time pass. *)
Inductive Tick : Type :=
| RunFirst
| RunSecond
| Clock (ms : Z).

Definition pool_step (s : Pool) (tk : Tick) : Pool :=
  match tk with
  | RunFirst =>
      {| first := fst (turn (first s) (heap s));
         second := second s;
         heap := snd (turn (first s) (heap s)) |}
  | RunSecond =>
      {| first := first s;
         second := fst (turn (second s) (heap s));
         heap := snd (turn (second s) (heap s)) |}
  | Clock ms =>
      {| first := first s; second := second s; heap := with_elapsed ms (heap s) |}
  end.

Definition run_pool (sched : list Tick) (s : Pool) : Pool :=
  fold_left pool_step sched s.

Definition two_callers (h : Heap) : Pool :=
  {| first := getValidAccessToken; second := getValidAccessToken; heap := h |}.

(** Single flight, for one start heap and one schedule: the two callers
    together send at most one refresh exchange. *)
Definition single_flight_at (h : Heap) (sched : list Tick) : Prop :=
  (refreshes_sent (heap (run_pool sched (two_callers h))) <= refreshes_sent h + 1)%nat.

(** [sends_within p n h]: resumed in heap [h], and whatever the heap is at
    its later awaits, the caller [p] sends at most [n] refresh exchanges
    and removes none from the log. *)
Fixpoint sends_within {A} (p : Async A) (n : nat) (h : Heap) : Prop :=
  match p with
  | Done _ => True
  | Get k => sends_within (k h) n h
  | Put h' p' =>
      (refreshes_sent h <= refreshes_sent h' <= refreshes_sent h + n)%nat /\
      sends_within p' (n - (refreshes_sent h' - refreshes_sent h)) h'
  | Yield p' => forall h'', sends_within p' n h''
  end.

(** ** Reading an authorization URL back *)

(** The other direction of the URL standard, as the authorization server
    applies it to the URL it is sent: the query of a URL, and the
    application/x-www-form-urlencoded parser. *)

Definition hex_value (c : ascii) : option N :=
  let n := N_of_ascii c in
  (if (48 <=? n) && (n <=? 57) then Some (n - 48)
   else if (65 <=? n) && (n <=? 70) then Some (n - 55)
   else if (97 <=? n) && (n <=? 102) then Some (n - 87)
   else None)%N.

Fixpoint percent_decode (s : string) : string :=
  match s with
  | EmptyString => EmptyString
  | String c s' =>
      if Ascii.eqb c "%" then
        match s' with
        | String a (String b rest) =>
            match hex_value a, hex_value b with
            | Some x, Some y => String (ascii_of_N (16 * x + y)) (percent_decode rest)
            | _, _ => String c (percent_decode s')
            end
        | _ => String c (percent_decode s')
        end
      else String c (percent_decode s')
  end.

Fixpoint plus_to_space (s : string) : string :=
  match s with
  | EmptyString => EmptyString
  | String c s' => String (if Ascii.eqb c "+" then " "%char else c) (plus_to_space s')
  end.

Fixpoint split_on (sep : ascii) (s : string) : list string :=
  match s with
  | EmptyString => [EmptyString]
  | String c s' =>
      if Ascii.eqb c sep then EmptyString :: split_on sep s'
      else match split_on sep s' with
           | x :: xs => String c x :: xs
           | [] => [String c EmptyString]
           end
  end.

(** [s] up to the first [sep], and what follows it. *)
Fixpoint cut_at (sep : ascii) (s : string) : string * string :=
  match s with
  | EmptyString => (EmptyString, EmptyString)
  | String c s' =>
      if Ascii.eqb c sep then (EmptyString, s')
      else (String c (fst (cut_at sep s')), snd (cut_at sep s'))
  end.

Definition urlencoded_parse (query : string) : list (string * string) :=
  map (fun seg => (percent_decode (plus_to_space (fst (cut_at "=" seg))),
                   percent_decode (plus_to_space (snd (cut_at "=" seg)))))
      (filter (fun seg => negb (seg =? "")%string) (split_on "&" query)).

Definition url_query (u : string) : string := snd (cut_at "?" u).

Fixpoint free_of (sep : ascii) (s : string) : bool :=
  match s with
  | EmptyString => true
  | String c s' => negb (Ascii.eqb c sep) && free_of sep s'
  end.

(** The text of one parameter, and what the parser makes of it. *)
Definition urlencoded_pair (p : string * string) : string :=
  urlencoded_serialize (fst p) ++ "=" ++ urlencoded_serialize (snd p).

(** ** The API client ([StravaClient], src/strava-client.ts) *)

(** [`${n}`] and [n.toString()] for a number that holds an integer (an id,
    a page, a Unix time, a status): its decimal digits.  That is what
    JavaScript prints for the integers a number holds exactly (up to
    2^53 - 1 in absolute value); above them digits are rounded, and from
    10^21 on it prints an exponent, [1e+21]. *)
Definition Number_toString (n : Z) : string :=
  DecimalString.NilZero.string_of_int (Z.to_int n).

Definition Boolean_toString (b : bool) : string :=
  if b then "true" else "false".

(** A request to the API, as [request] hands it to [fetch]: the URL and
    the init object [{...options, headers}]. *)
Record ApiRequest : Type := {
  api_url : string;
  api_method : option string;   (* absent: fetch sends a GET *)
  api_headers : list (string * string);
  api_body : option string
}.

(** The [options] the methods of the class pass to the private [request]:
    nothing, a method, or a method and a body; none passes [headers], so
    the spread of [options.headers] adds nothing. *)
Record RequestOptions : Type := {
  opt_method : option string;
  opt_body : option string
}.

Definition no_options : RequestOptions :=
  {| opt_method := None; opt_body := None |}.

Section StravaClient.

(** What the API answers with, parsed: [request<T>] hands it on unread. *)
Context {Json : Type}.

(** A [Response] of the API, as far as [request] reads it. *)
Inductive ApiResponse : Type :=
| Api_ok (status : Z) (statusText : string) (json : option Json)
| Api_not_ok (status : Z) (statusText : string) (json : option FailureBody).

Inductive ApiOutcome : Type :=
| Api_rejects (reason : string)
| Api_resolves (r : ApiResponse).

(** The client and what it talks to: [this.auth] in its world, the
    requests sent to the API so far (oldest first), and the API, which
    answers knowing every request sent to the token endpoint and to
    itself. *)
Record Client : Type := {
  auth : Heap;
  api_sent : list ApiRequest;
  api_server : list Request -> list ApiRequest -> ApiOutcome
}.

Definition with_auth (h : Heap) (s : Client) : Client :=
  {| auth := h; api_sent := api_sent s; api_server := api_server s |}.

Definition with_api_sent (req : ApiRequest) (s : Client) : Client :=
  {| auth := auth s; api_sent := api_sent s ++ [req]; api_server := api_server s |}.

(** A method of the client, run to its end. *)
Definition ClientM (A : Type) : Type := Client -> Completion A * Client.

Definition client_ret {A} (a : A) : ClientM A := fun s => (Normal a, s).
Definition client_throw {A} (e : Exn) : ClientM A := fun s => (Throw e, s).

Definition client_bind {A B} (m : ClientM A) (f : A -> ClientM B) : ClientM B :=
  fun s =>
    match m s with
    | (Normal a, s') => f a s'
    | (Throw e, s') => (Throw e, s')
    end.

(** [try { m } catch (error) { handler(error) }] *)
Definition client_catch {A} (m : ClientM A) (handler : Exn -> ClientM A) : ClientM A :=
  fun s =>
    match m s with
    | (Normal a, s') => (Normal a, s')
    | (Throw e, s') => handler e s'
    end.

(** [await this.auth.m()] for a method [m] of [StravaAuth]. *)
Definition await_auth {A} (m : Async A) : ClientM A :=
  fun s => (fst (run (await m) (auth s)), with_auth (snd (run (await m) (auth s))) s).

(** [await fetch(url, init)] against the API. *)
Definition api_fetch (req : ApiRequest) : ClientM ApiResponse :=
  fun s =>
    match api_server s (sent (world (auth s))) (api_sent s ++ [req]) with
    | Api_rejects reason => (Throw (TypeError reason), with_api_sent req s)
    | Api_resolves r => (Normal r, with_api_sent req s)
    end.

(** [response.json()], as [response_json]. *)
Definition api_json {A} (json : option A) : ClientM A :=
  match json with
  | Some v => client_ret v
  | None => client_throw (SyntaxError "Unexpected token")
  end.

End StravaClient.

Arguments ApiResponse Json : clear implicits.
Arguments ApiOutcome Json : clear implicits.
Arguments Client Json : clear implicits.
Arguments ClientM Json A : clear implicits.

Declare Scope client_scope.
Delimit Scope client_scope with client.
Notation "x <- m ;; k" := (client_bind m (fun x => k))
  (at level 61, m at next level, right associativity) : client_scope.

Definition baseUrl : string := "https://www.strava.com/api/v3".

Section StravaClientMethods.

Context {Json : Type}.

Definition request (endpoint : string) (options : RequestOptions) : ClientM Json Json :=
  (accessToken <- await_auth getValidAccessToken ;;
   response <- api_fetch
     {| api_url := baseUrl ++ endpoint;
        api_method := opt_method options;
        api_headers := [("Authorization", "Bearer " ++ accessToken);
                        ("Content-Type", "application/json")];
        api_body := opt_body options |} ;;
   match response with
   | Api_not_ok status statusText json =>   (* if (!response.ok) *)
       error <- client_catch (api_json json)
                  (fun _ => client_ret (Body_object {| message := Some statusText |})) ;;
       error_message <- (fun s => (message_of error, s)) ;;
       client_throw
         (Error ("Strava API error: " ++ or_else error_message statusText
                 ++ " (" ++ Number_toString status ++ ")"))
   | Api_ok _ _ json => api_json json
   end)%client.

Definition getAthlete : ClientM Json Json :=
  request "/athlete" no_options.

Definition getAthleteStats (athleteId : Z) : ClientM Json Json :=
  request ("/athletes/" ++ Number_toString athleteId ++ "/stats") no_options.

Definition getAthleteZones : ClientM Json Json :=
  request "/athlete/zones" no_options.

End StravaClientMethods.

(** *** The query-building methods *)

(** [queryParams.set(name, value)]: the first pair of that name takes the
    value and the later ones go; without such a pair, one is added at the
    end. *)
Fixpoint URLSearchParams_set (name value : string) (params : list (string * string))
  : list (string * string) :=
  match params with
  | [] => [(name, value)]
  | (k, v) :: rest =>
      if (k =? name)%string
      then (name, value) :: filter (fun p => negb (fst p =? name)%string) rest
      else (k, v) :: URLSearchParams_set name value rest
  end.

(** [if (params?.x) queryParams.set(name, params.x.toString())] for a
    number: absent and zero are both falsy. *)
Definition set_if_number (name : string) (x : option Z) (params : list (string * string))
  : list (string * string) :=
  match x with
  | Some n => if n =? 0 then params else URLSearchParams_set name (Number_toString n) params
  | None => params
  end.

(** [if (params?.x) queryParams.set(name, params.x)] for a string: absent
    and empty are both falsy. *)
Definition set_if_string (name : string) (x : option string) (params : list (string * string))
  : list (string * string) :=
  match x with
  | Some v => if (v =? "")%string then params else URLSearchParams_set name v params
  | None => params
  end.

(** [if (params?.x !== undefined) queryParams.set(name, params.x.toString())] *)
Definition set_if_defined (name : string) (x : option string) (params : list (string * string))
  : list (string * string) :=
  match x with
  | Some v => URLSearchParams_set name v params
  | None => params
  end.

(** [`${query ? `?${query}` : ''}`] *)
Definition optional_query (query : string) : string :=
  if (query =? "")%string then "" else "?" ++ query.

Module ActivitiesParams.
Record t : Type := {
  before : option Z;
  after : option Z;
  page : option Z;
  per_page : option Z
}.
End ActivitiesParams.

Module LeaderboardParams.
Inductive Gender : Type := M | F.
Record t : Type := {
  gender : option Gender;
  age_group : option string;
  weight_class : option string;
  following : option bool;
  club_id : option Z;
  date_range : option string;
  page : option Z;
  per_page : option Z
}.
Definition Gender_toString (g : Gender) : string :=
  match g with M => "M" | F => "F" end.
End LeaderboardParams.

Section StravaClientQueries.

Context {Json : Type}.

(** [params] is [None] for a call that leaves the argument out. *)
Definition getActivities (params : option ActivitiesParams.t) : ClientM Json Json :=
  let field {A} (f : ActivitiesParams.t -> option A) : option A :=
    match params with Some p => f p | None => None end in
  let queryParams := [] in
  let queryParams := set_if_number "before" (field ActivitiesParams.before) queryParams in
  let queryParams := set_if_number "after" (field ActivitiesParams.after) queryParams in
  let queryParams := set_if_number "page" (field ActivitiesParams.page) queryParams in
  let queryParams := set_if_number "per_page" (field ActivitiesParams.per_page) queryParams in
  let query := URLSearchParams_toString queryParams in
  request ("/athlete/activities" ++ optional_query query) no_options.

(** [includeAllEfforts] is [None] for a call that leaves it out. *)
Definition getActivity (id : Z) (includeAllEfforts : option bool) : ClientM Json Json :=
  let includeAllEfforts := match includeAllEfforts with Some b => b | None => false end in
  request ("/activities/" ++ Number_toString id
           ++ "?include_all_efforts=" ++ Boolean_toString includeAllEfforts)
          no_options.

Definition deleteActivity (id : Z) : ClientM Json unit :=
  (_ <- request ("/activities/" ++ Number_toString id)
          {| opt_method := Some "DELETE"; opt_body := None |} ;;
   client_ret tt)%client.

Definition default_stream_keys : list string :=
  ["time"; "latlng"; "distance"; "altitude"; "heartrate"; "watts"].

Definition getActivityStreams (id : Z) (keys : option (list string)) (keyByType : option bool)
  : ClientM Json Json :=
  let keys := match keys with Some ks => ks | None => default_stream_keys end in
  let keyByType := match keyByType with Some b => b | None => true end in
  let keysParam := String.concat "," keys in
  request ("/activities/" ++ Number_toString id ++ "/streams?keys=" ++ keysParam
           ++ "&key_by_type=" ++ Boolean_toString keyByType)
          no_options.

(** The tail [?page=${page}&per_page=${perPage}] of the paged methods,
    with their defaults [page = 1] and [perPage = 30]. *)
Definition paging (page perPage : option Z) : string :=
  let page := match page with Some n => n | None => 1 end in
  let perPage := match perPage with Some n => n | None => 30 end in
  "?page=" ++ Number_toString page ++ "&per_page=" ++ Number_toString perPage.

Definition getActivityComments (id : Z) (page perPage : option Z) : ClientM Json Json :=
  request ("/activities/" ++ Number_toString id ++ "/comments" ++ paging page perPage)
          no_options.

Definition getActivityKudos (id : Z) (page perPage : option Z) : ClientM Json Json :=
  request ("/activities/" ++ Number_toString id ++ "/kudos" ++ paging page perPage)
          no_options.

Definition getRoutes (athleteId : Z) (page perPage : option Z) : ClientM Json Json :=
  request ("/athletes/" ++ Number_toString athleteId ++ "/routes" ++ paging page perPage)
          no_options.

Definition getRoute (id : Z) : ClientM Json Json :=
  request ("/routes/" ++ Number_toString id) no_options.

Definition getStarredSegments (page perPage : option Z) : ClientM Json Json :=
  request ("/segments/starred" ++ paging page perPage) no_options.

Definition getSegment (id : Z) : ClientM Json Json :=
  request ("/segments/" ++ Number_toString id) no_options.

Definition getSegmentLeaderboard (id : Z) (params : option LeaderboardParams.t)
  : ClientM Json Json :=
  let field {A} (f : LeaderboardParams.t -> option A) : option A :=
    match params with Some p => f p | None => None end in
  let queryParams := [] in
  let queryParams :=
    set_if_string "gender"
      (option_map LeaderboardParams.Gender_toString (field LeaderboardParams.gender))
      queryParams in
  let queryParams := set_if_string "age_group" (field LeaderboardParams.age_group) queryParams in
  let queryParams :=
    set_if_string "weight_class" (field LeaderboardParams.weight_class) queryParams in
  let queryParams :=
    set_if_defined "following"
      (option_map Boolean_toString (field LeaderboardParams.following)) queryParams in
  let queryParams := set_if_number "club_id" (field LeaderboardParams.club_id) queryParams in
  let queryParams := set_if_string "date_range" (field LeaderboardParams.date_range) queryParams in
  let queryParams := set_if_number "page" (field LeaderboardParams.page) queryParams in
  let queryParams := set_if_number "per_page" (field LeaderboardParams.per_page) queryParams in
  let query := URLSearchParams_toString queryParams in
  request ("/segments/" ++ Number_toString id ++ "/leaderboard" ++ optional_query query)
          no_options.

Definition getAthleteClubs (page perPage : option Z) : ClientM Json Json :=
  request ("/athlete/clubs" ++ paging page perPage) no_options.

Definition getClub (id : Z) : ClientM Json Json :=
  request ("/clubs/" ++ Number_toString id) no_options.

Definition getClubMembers (id : Z) (page perPage : option Z) : ClientM Json Json :=
  request ("/clubs/" ++ Number_toString id ++ "/members" ++ paging page perPage)
          no_options.

Definition getClubActivities (id : Z) (page perPage : option Z) : ClientM Json Json :=
  request ("/clubs/" ++ Number_toString id ++ "/activities" ++ paging page perPage)
          no_options.

Definition getGear (id : string) : ClientM Json Json :=
  request ("/gear/" ++ id) no_options.

End StravaClientQueries.

(** ** The tool layer (src/tools/athlete.ts, src/index.ts) *)

(** [error.message] *)
Definition Exn_message (e : Exn) : string :=
  match e with
  | Error msg => msg
  | TypeError msg => msg
  | SyntaxError msg => msg
  end.

Record TextContent : Type := {
  type : string;
  text : string
}.

Record CallToolResult : Type := {
  content : list TextContent
}.

Section Tools.

(** [Json] is what the API answers with, [Raw] is what a tool call carries
    as [request.params.arguments]. *)
Context {Json Raw : Type}.

(** An entry of a tool table.  [inputSchema] is [inputSchema.parse]: the
    validated arguments, or the exception zod throws (a [ZodError], an
    [Error] whose message lists the issues). *)
Record Tool : Type := {
  description : string;
  Args : Type;
  inputSchema : Raw -> Completion Args;
  handler : Args -> ClientM Json CallToolResult
}.

(** [JSON.stringify(value, null, 2)] on what the API answered. *)
Variable JSON_stringify : Json -> string.

(** The zod schemas of src/tools/athlete.ts: [z.object({})] and
    [z.object({ athlete_id: z.number() })]. *)
Variable z_object_empty : Raw -> Completion unit.
Variable z_object_athlete_id : Raw -> Completion Z.

Definition text_result (value : Json) : CallToolResult :=
  {| content := [{| type := "text"; text := JSON_stringify value |}] |}.

Definition createAthleteTools : list (string * Tool) :=
  [("get_athlete",
    {| description := "Get the authenticated athlete profile";
       inputSchema := z_object_empty;
       handler := fun _ =>
         (athlete <- getAthlete ;;
          client_ret (text_result athlete))%client |});
   ("get_athlete_stats",
    {| description := "Get athlete statistics (totals and recent activities)";
       inputSchema := z_object_athlete_id;
       handler := fun athlete_id =>
         (stats <- getAthleteStats athlete_id ;;
          client_ret (text_result stats))%client |});
   ("get_athlete_zones",
    {| description := "Get athlete zones (heart rate and power zones)";
       inputSchema := z_object_empty;
       handler := fun _ =>
         (zones <- getAthleteZones ;;
          client_ret (text_result zones))%client |})].

(** The properties every object inherits from [Object.prototype]. *)
Definition Object_prototype_keys : list string :=
  ["constructor"; "__defineGetter__"; "__defineSetter__"; "hasOwnProperty";
   "__lookupGetter__"; "__lookupSetter__"; "isPrototypeOf";
   "propertyIsEnumerable"; "toString"; "valueOf"; "__proto__"; "toLocaleString"].

(** The own property [name] of an object built by spreading tables one
    after the other: the last entry of that name. *)
Fixpoint own_property (table : list (string * Tool)) (name : string) : option Tool :=
  match table with
  | [] => None
  | (k, tool) :: rest =>
      match own_property rest name with
      | Some later => Some later
      | None => if (k =? name)%string then Some tool else None
      end
  end.

(** The [CallToolRequestSchema] handler of src/index.ts, for a table
    [allTools], a tool name and the arguments of the call. *)
Definition call_tool (allTools : list (string * Tool)) (toolName : string) (arguments : Raw)
  : ClientM Json CallToolResult :=
  let rethrow (error : Exn) : ClientM Json CallToolResult :=
    client_throw (Error ("Tool execution failed: " ++ Exn_message error)) in
  match own_property allTools toolName with
  | Some tool =>
      client_catch
        (validatedArgs <- (fun s => (inputSchema tool arguments, s)) ;;
         handler tool validatedArgs)%client
        rethrow
  | None =>
      if existsb (String.eqb toolName) Object_prototype_keys
      then (* [tool] is an inherited function or object: it is truthy and
              its [inputSchema] is undefined *)
        client_catch
          (client_throw
             (TypeError "Cannot read properties of undefined (reading 'parse')"))
          rethrow
      else client_throw (Error ("Unknown tool: " ++ toolName))
  end.

End Tools.

(** ** Strings and objects of the platform, as the setup script uses them *)

(** Text is its UTF-8 bytes. *)
Definition LF : ascii := ascii_of_N 10.

Definition utf8 (bytes : list N) : string :=
  string_of_list_ascii (map ascii_of_N bytes).

(** The white space and line terminators [trim] removes: TAB, LF, VT, FF,
    CR, SPACE, U+00A0, U+1680, U+2000 to U+200A, U+2028, U+2029, U+202F,
    U+205F, U+3000 and U+FEFF. *)
Definition whitespace : list string :=
  Eval cbv in map utf8
    [[9]; [10]; [11]; [12]; [13]; [32];
     [194; 160];
     [225; 154; 128];
     [226; 128; 128]; [226; 128; 129]; [226; 128; 130]; [226; 128; 131];
     [226; 128; 132]; [226; 128; 133]; [226; 128; 134]; [226; 128; 135];
     [226; 128; 136]; [226; 128; 137]; [226; 128; 138];
     [226; 128; 168]; [226; 128; 169];
     [226; 128; 175];
     [226; 129; 159];
     [227; 128; 128];
     [239; 187; 191]]%N.

Fixpoint strip_prefix (w s : string) : option string :=
  match w with
  | EmptyString => Some s
  | String a w' =>
      match s with
      | String b s' => if Ascii.eqb a b then strip_prefix w' s' else None
      | EmptyString => None
      end
  end.

Fixpoint strip_one (ws : list string) (s : string) : option string :=
  match ws with
  | [] => None
  | w :: ws' =>
      match strip_prefix w s with
      | Some rest => Some rest
      | None => strip_one ws' s
      end
  end.

Fixpoint trim_front (ws : list string) (fuel : nat) (s : string) : string :=
  match fuel with
  | O => s
  | S fuel' =>
      match strip_one ws s with
      | Some rest => trim_front ws fuel' rest
      | None => s
      end
  end.

Fixpoint string_rev_append (s acc : string) : string :=
  match s with
  | EmptyString => acc
  | String c s' => string_rev_append s' (String c acc)
  end.
Definition string_rev (s : string) : string := string_rev_append s "".

Definition whitespace_reversed : list string :=
  Eval cbv in map string_rev whitespace.

(** [s.trimStart()], [s.trimEnd()] and [s.trim()] *)
Definition trimStart (s : string) : string := trim_front whitespace (String.length s) s.
Definition trimEnd (s : string) : string :=
  string_rev (trim_front whitespace_reversed (String.length s) (string_rev s)).
Definition trim (s : string) : string := trimEnd (trimStart s).


(** [obj[key]] for an own property. *)
Fixpoint Object_get (obj : list (string * string)) (key : string) : option string :=
  match obj with
  | [] => None
  | (k, v) :: rest => if (k =? key)%string then Some v else Object_get rest key
  end.

Fixpoint Object_put (key value : string) (obj : list (string * string))
  : list (string * string) :=
  match obj with
  | [] => [(key, value)]
  | (k, v) :: rest =>
      if (k =? key)%string then (k, value) :: rest
      else (k, v) :: Object_put key value rest
  end.

(** [obj[key] = value] on a plain object, for a string [value]: the
    accessor [__proto__] ignores it. *)
Definition Object_set (key value : string) (obj : list (string * string))
  : list (string * string) :=
  if (key =? "__proto__")%string then obj else Object_put key value obj.

Definition template (x : option string) : string :=
  match x with Some v => v | None => "undefined" end.

(** [s.startsWith(w)] *)
Definition startsWith (w s : string) : bool :=
  match strip_prefix w s with Some _ => true | None => false end.

(** A value [trim] leaves alone: it neither begins nor ends with white space. *)
Definition kept_by_trim (v : string) : bool :=
  match strip_one whitespace v, strip_one whitespace_reversed (string_rev v) with
  | None, None => true
  | _, _ => false
  end.

(** ** The interactive setup script ([npm run setup]) *)

Module Setup.

(** [prompt(question)], for the line [rl.question] resolves to. *)
Definition prompt (answer : string) : string := trim answer.

(** The script's own [exchangeToken(clientId, clientSecret, code)]. *)
Definition exchangeToken (clientId clientSecret code : string) : Async StravaTokenResponse :=
  response <- await (fetch token_endpoint
    {| method := "POST";
       headers := [("Content-Type", "application/json")];
       body := [("client_id", clientId);
                ("client_secret", clientSecret);
                ("code", code);
                ("grant_type", "authorization_code")] |}) ;;
  match response with
  | Response_not_ok statusText json =>   (* if (!response.ok) *)
      error <- await (catch (response_json json)
                        (fun _ => ret (Body_object {| message := Some statusText |}))) ;;
      error_message <- Done (message_of error) ;;
      throw (Error ("Failed to exchange token: " ++ or_else error_message statusText))
  | Response_ok _ json => response_json json
  end.

(** The body of the [forEach] of [loadExistingEnv], for one line. *)
Definition loadExistingEnv_line (env : list (string * string)) (line : string)
  : list (string * string) :=
  let trimmed := trim line in
  if negb (trimmed =? "")%string && negb (startsWith "#" trimmed) then
    match split_on "=" trimmed with
    | key :: valueParts =>
        if negb (key =? "")%string && (0 <? List.length valueParts)%nat
        then Object_set (trim key) (trim (String.concat "=" valueParts)) env
        else env
    | [] => env
    end
  else env.

(** [file] is what [readFile] finds: [None] when it throws. *)
Definition loadExistingEnv (file : option string) : list (string * string) :=
  match file with
  | Some content => fold_left loadExistingEnv_line (split_on LF content) []
  | None => []
  end.

(** The text [writeEnvFile] writes. *)
Definition writeEnvFile (env : list (string * string)) : string :=
  let lines :=
    ["# Strava API Credentials";
     "# Get these from: https://www.strava.com/settings/api";
     "STRAVA_CLIENT_ID=" ++ template (Object_get env "STRAVA_CLIENT_ID");
     "STRAVA_CLIENT_SECRET=" ++ template (Object_get env "STRAVA_CLIENT_SECRET");
     "";
     "# OAuth Tokens";
     "# These are obtained after completing the OAuth flow";
     "STRAVA_ACCESS_TOKEN=" ++ template (Object_get env "STRAVA_ACCESS_TOKEN");
     "STRAVA_REFRESH_TOKEN=" ++ template (Object_get env "STRAVA_REFRESH_TOKEN");
     "STRAVA_EXPIRES_AT=" ++ template (Object_get env "STRAVA_EXPIRES_AT");
     "";
     "# OAuth Scope (for reference)";
     "# STRAVA_SCOPE=" ++ or_else (Object_get env "STRAVA_SCOPE")
                                  "read,activity:read_all,profile:read_all";
     ""] in
  String.concat (String LF "") lines.


(** The object [main] hands to [writeEnvFile] once the exchange succeeded. *)
Definition saved_env (clientId clientSecret : string) (tokens : StravaTokenResponse)
           (scope : string) : list (string * string) :=
  [("STRAVA_CLIENT_ID", clientId);
   ("STRAVA_CLIENT_SECRET", clientSecret);
   ("STRAVA_ACCESS_TOKEN", access_token tokens);
   ("STRAVA_REFRESH_TOKEN", refresh_token tokens);
   ("STRAVA_EXPIRES_AT", Number_toString (expires_at tokens));
   ("STRAVA_SCOPE", scope)].

(** The scope [main] settles on for the trimmed answer [scopeChoice]. *)
Definition main_scope (scopeChoice : string) : string :=
  if (scopeChoice =? "1")%string then "read,activity:read"
  else if (scopeChoice =? "2")%string then "read,activity:read_all,profile:read_all"
  else if (scopeChoice =? "3")%string
       then "read,activity:read_all,activity:write,profile:read_all"
  else "read,activity:read".

(** The [authUrl] that [main] prints: a template literal; nothing is
    encoded. *)
Definition main_authUrl (clientId scope : string) : string :=
  let redirectUri := "http://localhost" in
  "https://www.strava.com/oauth/authorize?client_id=" ++ clientId
  ++ "&redirect_uri=" ++ redirectUri
  ++ "&response_type=code&scope=" ++ scope ++ "&approval_prompt=auto".

(** A value that survives being written on a line and read back. *)
Definition one_line (v : string) : bool := kept_by_trim v && free_of LF v.

End Setup.

(** ** Vocabulary for the properties of the client *)

(** The request [request endpoint options] sends with the token
    [accessToken]. *)
Definition api_request (endpoint : string) (options : RequestOptions) (accessToken : string)
  : ApiRequest :=
  {| api_url := baseUrl ++ endpoint;
     api_method := opt_method options;
     api_headers := [("Authorization", "Bearer " ++ accessToken);
                     ("Content-Type", "application/json")];
     api_body := opt_body options |}.

(** The answer of the API to [req], sent by the client [s]. *)
Definition api_answer {Json : Type} (s : Client Json) (req : ApiRequest) : ApiOutcome Json :=
  api_server s (sent (world (auth s))) (api_sent s ++ [req]).

(** What a query is expected to carry for an optional parameter. *)
Definition carried_number (name : string) (x : option Z) : list (string * string) :=
  match x with
  | Some n => if n =? 0 then [] else [(name, Number_toString n)]
  | None => []
  end.

Definition carried_string (name : string) (x : option string) : list (string * string) :=
  match x with
  | Some v => if (v =? "")%string then [] else [(name, v)]
  | None => []
  end.

Definition carried_boolean (name : string) (x : option bool) : list (string * string) :=
  match x with
  | Some b => [(name, Boolean_toString b)]
  | None => []
  end.

(** [Number.isSafeInteger(n)]: an integer a number holds exactly. *)
Definition Number_isSafeInteger (n : Z) : bool :=
  Z.abs n <=? 9007199254740991.

(** A string made of letters, digits and [*], [-], [.], [_] only. *)
Definition plain (s : string) : bool :=
  forallb urlencoded_safe (list_ascii_of_string s).

(** A client whose credential is [t] and need not be refreshed. *)
Definition usable {Json : Type} (s : Client Json) (t : StravaTokens) : Prop :=
  tokens (this (auth s)) = Some t /\
  expiresAt t > now_seconds (world (auth s)) + 300.

(** Text that can stand in a query as it is: none of the characters that
    separate parameters, stand for others or end the query. *)
Definition raw_safe (s : string) : bool :=
  free_of "&" s && free_of "=" s && free_of "+" s && free_of "%" s && free_of "#" s.

(** The parameters [name=value] written one after the other, as a template
    literal does, with nothing encoded. *)
Definition raw_query (params : list (string * string)) : string :=
  String.concat "&" (map (fun p => fst p ++ "=" ++ snd p) params).

(** A method that is a [request] without options whose query reads back as
    [page] and [per_page]. *)
Definition asks_for_page {Json : Type} (m : ClientM Json Json) (page perPage : Z) : Prop :=
  exists endpoint,
    m = request endpoint no_options /\
    urlencoded_parse (url_query endpoint) =
      [("page", Number_toString page); ("per_page", Number_toString perPage)].

(** ** The scenarios of the spec, as heaps *)

Module Scenario.

(** The clock of every scenario: [now] is 1700000000 seconds. *)
Definition clock_ms : Z := 1700000000000.

Definition heap_of (t : option StravaTokens) (srv : list Request -> FetchOutcome) : Heap :=
  {| this := {| clientId := "12345"; clientSecret := "s3cr3t"; tokens := t |};
     world := {| Date_now := clock_ms; sent := []; server := srv |} |}.

Definition stored (expiresAt : Z) : StravaTokens :=
  {| accessToken := "old"; refreshToken := "old-r"; expiresAt := expiresAt |}.

Definition payload : StravaTokenResponse :=
  {| access_token := "new"; refresh_token := "new-r";
     expires_at := 1700000000 + 21600; expires_in := 21600;
     token_type := "Bearer" |}.

Definition issues_tokens : list Request -> FetchOutcome :=
  fun _ => Resolves (Response_ok "OK" (Some payload)).

Definition rejects_401 : list Request -> FetchOutcome :=
  fun _ => Resolves (Response_not_ok "Unauthorized"
                       (Some (Body_object {| message := Some "Invalid refresh token" |}))).


(** Scenario A: the Credential expires in 10000 seconds. *)
Definition A : Heap := heap_of (Some (stored (1700000000 + 10000))) issues_tokens.
(** Scenario B: the Credential expires in 60 seconds. *)
Definition B : Heap := heap_of (Some (stored (1700000000 + 60))) issues_tokens.
(** Scenario C: the refresh is answered 401. *)
Definition C : Heap := heap_of (Some (stored (1700000000 + 60))) rejects_401.
(** Scenario D: nothing installed, the exchange is answered 200. *)
Definition D : Heap := heap_of None issues_tokens.

End Scenario.

(** ** Clients for the scenarios *)

Module ClientScenario.

(** The client around the object of a scenario, with an API that answers
    every request the same way.  The API's JSON is kept as text. *)
Definition client_of (h : Heap) (answer : ApiOutcome string) : Client string :=
  {| auth := h; api_sent := []; api_server := fun _ _ => answer |}.

Definition athlete_json : string := "{}".

Definition answers_athlete : ApiOutcome string :=
  Api_resolves (Api_ok 200 "OK" (Some athlete_json)).



Definition answers_204 : ApiOutcome string :=
  Api_resolves (Api_ok 204 "No Content" None).

(** Tool calls whose arguments are an object [{ athlete_id: n }] for an
    integer [n], given as [n].  Both schemas of the athlete tools accept
    these: [z.object({})] drops the key it does not know, and
    [z.object({ athlete_id: z.number() })] keeps it for the handler. *)
Definition z_object_empty : Z -> Completion unit :=
  fun _ => Normal tt.

Definition z_object_athlete_id : Z -> Completion Z :=
  fun athlete_id => Normal athlete_id.

Definition athlete_tools : list (string * @Tool string Z) :=
  createAthleteTools (fun json => json) z_object_empty z_object_athlete_id.

End ClientScenario.

(** * Properties *)

Ltac each_byte c := destruct c as [[] [] [] [] [] [] [] []].

(** The methods are unfolded by hand, through their [_run] equations. *)
Arguments setTokens : simpl never.
Arguments exchangeToken : simpl never.
Arguments refreshAccessToken : simpl never.
Arguments getValidAccessToken : simpl never.
Arguments getAuthorizationUrl : simpl never.
Arguments hasTokens : simpl never.

(** ** What each method does, run on its own *)

Lemma refreshAccessToken_run (h : Heap) :
  run refreshAccessToken h =
  match tokens (this h) with
  | None => (Throw (Error "No tokens available to refresh"), h)
  | Some t =>
      let req := refresh_request (this h) t in
      let h1 := with_sent req h in
      match answer h req with
      | Rejects reason => (Throw (TypeError reason), h1)
      | Resolves (Response_not_ok statusText json) =>
          (Throw (failure_of (fun m => Error ("Failed to refresh token: " ++ m))
                             statusText json), h1)
      | Resolves (Response_ok _ None) => (Throw (SyntaxError "Unexpected token"), h1)
      | Resolves (Response_ok _ (Some d)) =>
          (Normal (credential_of d), with_tokens (Some (credential_of d)) h1)
      end
  end.
Proof.
  unfold refreshAccessToken, answer, refresh_request. simpl.
  destruct (tokens (this h)) as [t|]; simpl; [|reflexivity].
  destruct (server _ _) as [reason|[st [d|]|st [[|e]|]]]; simpl; try reflexivity.
  unfold failure_of, server_message, or_else. destruct (st =? "")%string; reflexivity.
Qed.

Lemma exchangeToken_run (code : string) (h : Heap) :
  run (exchangeToken code) h =
  let req := exchange_request (this h) code in
  let h1 := with_sent req h in
  match answer h req with
  | Rejects reason => (Throw (TypeError reason), h1)
  | Resolves (Response_not_ok statusText json) =>
      (Throw (failure_of (fun m => Error ("Failed to exchange token: " ++ m))
                         statusText json), h1)
  | Resolves (Response_ok _ None) => (Throw (SyntaxError "Unexpected token"), h1)
  | Resolves (Response_ok _ (Some d)) =>
      (Normal (credential_of d), with_tokens (Some (credential_of d)) h1)
  end.
Proof.
  unfold exchangeToken, answer, exchange_request. simpl.
  destruct (server _ _) as [reason|[st [d|]|st [[|e]|]]]; simpl; try reflexivity.
  unfold failure_of, server_message, or_else. destruct (st =? "")%string; reflexivity.
Qed.

Lemma run_bind {A B} (p : Async A) (f : A -> Async B) (h : Heap) :
  run (bind p f) h =
  match run p h with
  | (Normal a, h') => run (f a) h'
  | (Throw e, h') => (Throw e, h')
  end.
Proof.
  revert h. induction p as [[a|e]|k IH|h' p IH|p IH]; intros h; simpl; auto.
Qed.

Lemma run_await {A} (p : Async A) (h : Heap) : run (await p) h = run p h.
Proof.
  revert h. induction p as [c|k IH|h' p IH|p IH]; intros h; simpl; auto.
Qed.

Lemma setTokens_run (a r : string) (e : Z) (h : Heap) :
  run (setTokens a r e) h =
  (Normal tt,
   with_tokens (Some {| accessToken := a; refreshToken := r; expiresAt := e |}) h).
Proof. reflexivity. Qed.

Lemma hasTokens_run (h : Heap) :
  run hasTokens h =
  (Normal (match tokens (this h) with Some _ => true | None => false end), h).
Proof. reflexivity. Qed.

Lemma getAuthorizationUrl_run (redirectUri : string) (scope : option string) (h : Heap) :
  run (getAuthorizationUrl redirectUri scope) h =
  (Normal (authorize_endpoint ++ "?" ++
           URLSearchParams_toString
             [("client_id", clientId (this h));
              ("redirect_uri", redirectUri);
              ("response_type", "code");
              ("scope", match scope with Some s => s | None => default_scope end)]),
   h).
Proof. reflexivity. Qed.

(** A turn is a prefix of the sequential run. *)
Lemma run_turn {A} (p : Async A) (h : Heap) :
  run (fst (turn p h)) (snd (turn p h)) = run p h.
Proof.
  revert h. induction p as [c|k IH|h' p IH|p IH]; intros h; simpl; auto.
Qed.

Lemma getValidAccessToken_run (h : Heap) :
  run getValidAccessToken h =
  match tokens (this h) with
  | None => (Throw (Error "No tokens available. Please authenticate first."), h)
  | Some t =>
      if expiresAt t <=? now_seconds (world h) + 300
      then match run refreshAccessToken h with
           | (Normal _, h') =>
               (match tokens (this h') with
                | Some t' => Normal (accessToken t')
                | None => Throw (TypeError "Cannot read properties of null (reading 'accessToken')")
                end, h')
           | (Throw e, h') => (Throw e, h')
           end
      else (Normal (accessToken t), h)
  end.
Proof.
  unfold getValidAccessToken. rewrite run_bind. cbn [read run ret].
  destruct (tokens (this h)) as [t|] eqn:Ht; [|reflexivity].
  rewrite run_bind. cbn [read run ret]. rewrite run_bind. unfold bufferTime.
  destruct (expiresAt t <=? now_seconds (world h) + 300).
  - rewrite run_bind, run_await.
    destruct (run refreshAccessToken h) as [[x|e] h']; cbn [run ret]; [|reflexivity].
    rewrite run_bind. cbn [read run ret].
    destruct (tokens (this h')); reflexivity.
  - cbn [run ret]. rewrite run_bind. cbn [read run ret]. rewrite Ht. reflexivity.
Qed.

Lemma run_drop_result {A} (p : Async A) (h : Heap) :
  snd (run (_ <- p ;; ret tt) h) = snd (run p h).
Proof.
  rewrite run_bind. destruct (run p h) as [[a|e] h']; reflexivity.
Qed.

(** The heap after each method, as a function of the heap before. *)
Lemma refreshAccessToken_heap (h : Heap) :
  let h' := snd (run refreshAccessToken h) in
  clientId (this h') = clientId (this h) /\
  clientSecret (this h') = clientSecret (this h) /\
  Date_now (world h') = Date_now (world h) /\
  (tokens (this h) = None -> tokens (this h') = None) /\
  (tokens (this h) <> None -> tokens (this h') <> None).
Proof.
  rewrite refreshAccessToken_run.
  destruct (tokens (this h)) as [t|] eqn:Ht; cbn.
  - destruct (answer _ _) as [reason|[st [d|]|st j]]; cbn; rewrite ?Ht;
      repeat split; congruence.
  - rewrite Ht. repeat split; congruence.
Qed.

Lemma getValidAccessToken_heap (h : Heap) :
  let h' := snd (run getValidAccessToken h) in
  clientId (this h') = clientId (this h) /\
  clientSecret (this h') = clientSecret (this h) /\
  (tokens (this h) <> None -> tokens (this h') <> None).
Proof.
  rewrite getValidAccessToken_run.
  destruct (tokens (this h)) as [t|] eqn:Ht; cbn.
  - destruct (expiresAt t <=? _).
    + pose proof (refreshAccessToken_heap h) as (Hc & Hs & _ & _ & Hn).
      assert (Hn' : tokens (this (snd (run refreshAccessToken h))) <> None)
        by (apply Hn; congruence).
      destruct (run refreshAccessToken h) as [[x|e] h']; cbn in *; auto.
    + cbn. rewrite Ht. repeat split; congruence.
  - repeat split; congruence.
Qed.

Lemma exchangeToken_heap (code : string) (h : Heap) :
  let h' := snd (run (exchangeToken code) h) in
  clientId (this h') = clientId (this h) /\
  clientSecret (this h') = clientSecret (this h) /\
  (tokens (this h) <> None -> tokens (this h') <> None).
Proof.
  rewrite exchangeToken_run. cbn.
  destruct (answer _ _) as [reason|[st [d|]|st j]]; cbn;
    repeat split; congruence.
Qed.

Lemma invoke_heap (c : Call) (h : Heap) :
  let h' := snd (run (invoke c) h) in
  clientId (this h') = clientId (this h) /\
  clientSecret (this h') = clientSecret (this h) /\
  (tokens (this h) <> None -> tokens (this h') <> None).
Proof.
  destruct c; unfold invoke; rewrite ?run_drop_result.
  - rewrite setTokens_run. cbn. repeat split; congruence.
  - apply exchangeToken_heap.
  - pose proof (refreshAccessToken_heap h) as (Hc & Hs & _ & _ & Hn).
    repeat split; assumption.
  - apply getValidAccessToken_heap.
  - rewrite getAuthorizationUrl_run. cbn. repeat split; auto.
  - rewrite hasTokens_run. cbn. repeat split; auto.
Qed.

Lemma event_step_heap (ev : Event) (h : Heap) :
  let h' := event_step h ev in
  clientId (this h') = clientId (this h) /\
  clientSecret (this h') = clientSecret (this h) /\
  (tokens (this h) <> None -> tokens (this h') <> None).
Proof.
  destruct ev as [c|ms]; [apply invoke_heap|cbn; repeat split; auto].
Qed.

Lemma run_events_heap (evs : list Event) (h : Heap) :
  let h' := run_events evs h in
  clientId (this h') = clientId (this h) /\
  clientSecret (this h') = clientSecret (this h) /\
  (tokens (this h) <> None -> tokens (this h') <> None).
Proof.
  revert h. induction evs as [|ev evs IH]; intros h; cbn.
  - repeat split; auto.
  - destruct (IH (event_step h ev)) as (Hc & Hs & Hn).
    destruct (event_step_heap ev h) as (Hc' & Hs' & Hn').
    cbn in *. unfold run_events in *.
    repeat split; try congruence. auto.
Qed.


(** Turns taken one after the other, with nobody in between, are the
    sequential run. *)
Lemma run_turns {A} (n : nat) (p : Async A) (h : Heap) :
  run (fst (turns n p h)) (snd (turns n p h)) = run p h.
Proof.
  revert p h. induction n as [|n IH]; intros p h; cbn [turns]; [reflexivity|].
  rewrite IH. apply run_turn.
Qed.

(** ** The claims *)

(** C1: for every installed Credential with [expires_at <= now + 300],
    [getValidAccessToken] sends exactly one request, the refresh exchange
    to the token endpoint; when that exchange succeeds it returns the newly
    issued access token, and the stored Credential is the one the server
    returned, [expires_at] included. *)
Theorem C1_expiring_credential_is_refreshed_once (h : Heap) (t : StravaTokens) :
  tokens (this h) = Some t ->
  expiresAt t <= now_seconds (world h) + 300 ->
  let req := refresh_request (this h) t in
  let result := run getValidAccessToken h in
  sent (world (snd result)) = (sent (world h) ++ [req])%list /\
  url req = "https://www.strava.com/oauth/token" /\
  is_refresh req = true /\
  forall statusText d,
    answer h req = Resolves (Response_ok statusText (Some d)) ->
    fst result = Normal (access_token d) /\
    tokens (this (snd result)) =
      Some {| accessToken := access_token d;
              refreshToken := refresh_token d;
              expiresAt := expires_at d |}.
Proof.
  intros Ht Hexp req result. subst result.
  rewrite getValidAccessToken_run, Ht.
  apply Z.leb_le in Hexp. rewrite Hexp.
  rewrite refreshAccessToken_run, Ht. cbv zeta. fold req.
  split; [|split; [reflexivity|split; [reflexivity|]]].
  - destruct (answer h req) as [reason|[st [d|]|st j]]; reflexivity.
  - intros st d Hans. rewrite Hans. cbn. split; reflexivity.
Qed.

Lemma C1_scenario_B :
  fst (run getValidAccessToken Scenario.B) = Normal "new" /\
  tokens (this (snd (run getValidAccessToken Scenario.B))) =
    Some {| accessToken := "new"; refreshToken := "new-r"; expiresAt := 1700021600 |} /\
  length (sent (world (snd (run getValidAccessToken Scenario.B)))) = 1%nat.
Proof.
  destruct (C1_expiring_credential_is_refreshed_once
              Scenario.B (Scenario.stored (1700000000 + 60)) eq_refl
              ltac:(cbn; lia))
    as (Hsent & _ & _ & Hok).
  destruct (Hok "OK" Scenario.payload eq_refl) as (Hres & Htok).
  split; [exact Hres|split; [exact Htok|]].
  rewrite Hsent. reflexivity.
Defined.

(** C2: for every installed Credential with [expires_at > now + 300],
    [getValidAccessToken] returns the stored access token and leaves the
    whole heap as it was: no request is sent, the Credential is unchanged. *)
Theorem C2_fresh_credential_is_returned_as_is (h : Heap) (t : StravaTokens) :
  tokens (this h) = Some t ->
  expiresAt t > now_seconds (world h) + 300 ->
  run getValidAccessToken h = (Normal (accessToken t), h) /\
  sent (world (snd (run getValidAccessToken h))) = sent (world h) /\
  tokens (this (snd (run getValidAccessToken h))) = Some t.
Proof.
  intros Ht Hexp.
  assert (E : run getValidAccessToken h = (Normal (accessToken t), h)).
  { rewrite getValidAccessToken_run, Ht.
    destruct (expiresAt t <=? now_seconds (world h) + 300) eqn:E; [|reflexivity].
    apply Z.leb_le in E. lia. }
  rewrite E. cbn. auto.
Qed.

Lemma C2_scenario_A :
  run getValidAccessToken Scenario.A = (Normal "old", Scenario.A) /\
  sent (world (snd (run getValidAccessToken Scenario.A))) = [] /\
  tokens (this (snd (run getValidAccessToken Scenario.A))) =
    Some (Scenario.stored (1700000000 + 10000)).
Proof.
  apply (C2_fresh_credential_is_returned_as_is
           Scenario.A (Scenario.stored (1700000000 + 10000)) eq_refl).
  vm_compute. reflexivity.
Defined.







(** C4: with no Credential installed, [getValidAccessToken] and
    [refreshAccessToken] both fail with the no-credential error, and the
    heap is as it was: no request was sent and nothing is installed. *)
Theorem C4_no_credential_is_an_error (h : Heap) :
  tokens (this h) = None ->
  (exists e, run getValidAccessToken h = (Throw e, h) /\ NoCredentialError e) /\
  (exists e, run refreshAccessToken h = (Throw e, h) /\ NoCredentialError e) /\
  sent (world (snd (run getValidAccessToken h))) = sent (world h) /\
  sent (world (snd (run refreshAccessToken h))) = sent (world h) /\
  tokens (this (snd (run getValidAccessToken h))) = None /\
  tokens (this (snd (run refreshAccessToken h))) = None.
Proof.
  intros Ht. rewrite getValidAccessToken_run, refreshAccessToken_run, Ht. cbn.
  repeat split; auto.
  - eexists; split; [reflexivity|left; reflexivity].
  - eexists; split; [reflexivity|right; reflexivity].
Qed.

Lemma C4_scenario_unauthenticated :
  (exists e, run getValidAccessToken Scenario.D = (Throw e, Scenario.D) /\
             NoCredentialError e) /\
  (exists e, run refreshAccessToken Scenario.D = (Throw e, Scenario.D) /\
             NoCredentialError e) /\
  sent (world (snd (run getValidAccessToken Scenario.D))) = [] /\
  sent (world (snd (run refreshAccessToken Scenario.D))) = [] /\
  tokens (this (snd (run getValidAccessToken Scenario.D))) = None /\
  tokens (this (snd (run refreshAccessToken Scenario.D))) = None.
Proof.
  apply (C4_no_credential_is_an_error Scenario.D). reflexivity.
Defined.




(** ** Two concurrent callers: how many refresh exchanges *)

Lemma sends_within_mono {A} (p : Async A) :
  forall (n m : nat) (h : Heap),
    (n <= m)%nat -> sends_within p n h -> sends_within p m h.
Proof.
  induction p as [c|k IH|h' p IH|p IH]; intros n m h Hnm; cbn; auto.
  - apply IH; assumption.
  - intros (Hb & Hp). split; [lia|]. revert Hp. apply IH. lia.
  - intros Hp h''. eapply IH; eauto.
Qed.

Lemma turn_sends_within {A} (p : Async A) :
  forall (n : nat) (h : Heap),
    sends_within p n h ->
    (refreshes_sent h <= refreshes_sent (snd (turn p h)) <= refreshes_sent h + n)%nat /\
    forall h'',
      sends_within (fst (turn p h))
        (n - (refreshes_sent (snd (turn p h)) - refreshes_sent h)) h''.
Proof.
  induction p as [c|k IH|h' p IH|p IH]; intros n h; cbn.
  - intros _. split; [lia|auto].
  - apply IH.
  - intros (Hb & Hp). destruct (IH _ _ Hp) as (Hb' & Hk).
    split; [lia|]. intros h''. eapply sends_within_mono; [|apply Hk]. lia.
  - intros Hp. split; [lia|]. intros h''.
    eapply sends_within_mono; [|apply Hp]. lia.
Qed.

Lemma refreshes_sent_with_tokens (t : option StravaTokens) (h : Heap) :
  refreshes_sent (with_tokens t h) = refreshes_sent h.
Proof. reflexivity. Qed.

Lemma refreshes_sent_with_elapsed (ms : Z) (h : Heap) :
  refreshes_sent (with_elapsed ms h) = refreshes_sent h.
Proof. reflexivity. Qed.

Lemma refreshes_sent_with_sent (req : Request) (h : Heap) :
  refreshes_sent (with_sent req h) =
  (refreshes_sent h + (if is_refresh req then 1 else 0))%nat.
Proof.
  unfold refreshes_sent, with_sent. cbn [world sent].
  rewrite filter_app, length_app. cbn [filter].
  destruct (is_refresh req); reflexivity.
Qed.

(** One call of [getValidAccessToken] sends at most one refresh exchange,
    whatever happens to the heap while it is suspended. *)
Lemma getValidAccessToken_sends_within (h : Heap) :
  sends_within getValidAccessToken 1 h.
Proof.
  unfold getValidAccessToken, refreshAccessToken. cbn.
  destruct (tokens (this h)) as [t|] eqn:Ht; cbn; [|exact I].
  destruct (expiresAt t <=? now_seconds (world h) + bufferTime); cbn; rewrite Ht; cbn.
  - unfold refreshes_sent. rewrite filter_app, length_app. cbn.
    split; [lia|].
    match goal with
    | |- context [(?a + 1 - ?a)%nat] => replace (a + 1 - a)%nat with 1%nat by lia
    end.
    destruct (server _ _) as [reason|[st [d|]|st [[|e]|]]]; cbn; intros h1; cbn; auto.
    intros h2. cbn. rewrite refreshes_sent_with_tokens.
    split; [lia|]. intros h3.
    destruct (tokens (this h3)); exact I.
  - exact I.
Qed.

Lemma run_pool_sends_at_most_two (sched : list Tick) :
  forall (s : Pool) (a b : nat),
    (forall h, sends_within (first s) a h) ->
    (forall h, sends_within (second s) b h) ->
    (refreshes_sent (heap s) <= refreshes_sent (heap (run_pool sched s))
     <= refreshes_sent (heap s) + a + b)%nat.
Proof.
  induction sched as [|tk sched IH]; intros s a b Ha Hb; cbn [run_pool fold_left].
  - lia.
  - destruct tk as [| |ms]; cbn [fold_left pool_step].
    + destruct (turn_sends_within (first s) a (heap s) (Ha _)) as (Hr & Hk).
      specialize (IH {| first := fst (turn (first s) (heap s));
                        second := second s;
                        heap := snd (turn (first s) (heap s)) |} _ b Hk Hb).
      cbn [heap first second] in IH. unfold run_pool in IH. lia.
    + destruct (turn_sends_within (second s) b (heap s) (Hb _)) as (Hr & Hk).
      specialize (IH {| first := first s;
                        second := fst (turn (second s) (heap s));
                        heap := snd (turn (second s) (heap s)) |} a _ Ha Hk).
      cbn [heap first second] in IH. unfold run_pool in IH. lia.
    + specialize (IH {| first := first s; second := second s;
                        heap := with_elapsed ms (heap s) |} a b Ha Hb).
      cbn [heap first second] in IH. unfold run_pool in IH.
      rewrite refreshes_sent_with_elapsed in IH. lia.
Qed.

(** The first turn of a call that finds an expiring Credential sends the
    refresh exchange and suspends. *)
Lemma turn_getValidAccessToken_expiring (h : Heap) (t : StravaTokens) :
  tokens (this h) = Some t ->
  expiresAt t <= now_seconds (world h) + 300 ->
  snd (turn getValidAccessToken h) = with_sent (refresh_request (this h) t) h.
Proof.
  intros Ht Hexp. apply Z.leb_le in Hexp.
  unfold getValidAccessToken, refreshAccessToken, bufferTime. cbn.
  rewrite Ht. cbn. rewrite Hexp. cbn. rewrite Ht. cbn.
  destruct (server _ _) as [reason|r]; reflexivity.
Qed.

(** C6, as the code has it: there is no single-flight guard.  Each of two
    concurrent calls sends at most one refresh exchange, so at most two
    are sent under every schedule; and when the second call starts while
    the first is suspended on its refresh, each call sends its own: two
    exchanges, whatever the schedule does afterwards. *)
Theorem C6_one_refresh_per_caller (h : Heap) (sched : list Tick) :
  (refreshes_sent (heap (run_pool sched (two_callers h))) <= refreshes_sent h + 2)%nat /\
  forall t rest,
    tokens (this h) = Some t ->
    expiresAt t <= now_seconds (world h) + 300 ->
    sched = RunFirst :: RunSecond :: rest ->
    refreshes_sent (heap (run_pool sched (two_callers h))) = (refreshes_sent h + 2)%nat.
Proof.
  split.
  - pose proof (run_pool_sends_at_most_two sched (two_callers h) 1 1
                  getValidAccessToken_sends_within getValidAccessToken_sends_within) as H.
    cbn [two_callers heap] in H. lia.
  - intros t rest Ht Hexp ->.
    cbn [run_pool fold_left pool_step two_callers first second heap].
    set (h1 := snd (turn getValidAccessToken h)).
    assert (E1 : h1 = with_sent (refresh_request (this h) t) h)
      by (apply turn_getValidAccessToken_expiring; assumption).
    assert (E2 : snd (turn getValidAccessToken h1) =
                 with_sent (refresh_request (this h1) t) h1).
    { apply turn_getValidAccessToken_expiring; rewrite E1; assumption. }
    assert (R1 : refreshes_sent h1 = (refreshes_sent h + 1)%nat)
      by (rewrite E1, refreshes_sent_with_sent; reflexivity).
    assert (R2 : refreshes_sent (snd (turn getValidAccessToken h1)) =
                 (refreshes_sent h + 2)%nat)
      by (rewrite E2, refreshes_sent_with_sent, R1; cbn; lia).
    destruct (turn_sends_within getValidAccessToken 1 h
                (getValidAccessToken_sends_within h)) as (_ & K1).
    destruct (turn_sends_within getValidAccessToken 1 h1
                (getValidAccessToken_sends_within h1)) as (_ & K2).
    fold h1 in K1. rewrite R1 in K1. rewrite R2, R1 in K2.
    replace (1 - (refreshes_sent h + 1 - refreshes_sent h))%nat with 0%nat in K1 by lia.
    replace (1 - (refreshes_sent h + 2 - (refreshes_sent h + 1)))%nat with 0%nat in K2 by lia.
    pose proof (run_pool_sends_at_most_two rest
                  {| first := fst (turn getValidAccessToken h);
                     second := fst (turn getValidAccessToken h1);
                     heap := snd (turn getValidAccessToken h1) |} 0 0 K1 K2) as H.
    cbn [heap] in H. unfold run_pool in H. lia.
Qed.

Lemma C6_scenario_B_two_refreshes :
  (refreshes_sent
     (heap (run_pool [RunFirst; RunSecond; RunFirst; RunSecond]
                     (two_callers Scenario.B))) <= 0 + 2)%nat /\
  refreshes_sent
    (heap (run_pool [RunFirst; RunSecond; RunFirst; RunSecond]
                    (two_callers Scenario.B))) = 2%nat.
Proof.
  destruct (C6_one_refresh_per_caller
              Scenario.B [RunFirst; RunSecond; RunFirst; RunSecond]) as (Hle & Heq).
  split; [exact Hle|].
  apply (Heq (Scenario.stored (1700000000 + 60)) [RunFirst; RunSecond] eq_refl);
    [cbn; lia|reflexivity].
Defined.

(** C6 as the spec words it fails: in scenario B, with both calls started
    before either refresh is answered and then run to their end, both
    calls return the new token and two refresh exchanges were sent. *)
Lemma C6_not_single_flight :
  let sched := [RunFirst; RunSecond;
                RunFirst; RunFirst; RunFirst;
                RunSecond; RunSecond; RunSecond] in
  let s := run_pool sched (two_callers Scenario.B) in
  tokens (this Scenario.B) = Some (Scenario.stored (1700000000 + 60)) /\
  1700000000 + 60 <= now_seconds (world Scenario.B) + 300 /\
  first s = Done (Normal "new") /\
  second s = Done (Normal "new") /\
  refreshes_sent Scenario.B = 0%nat /\
  refreshes_sent (heap s) = 2%nat /\
  ~ single_flight_at Scenario.B sched.
Proof.
  cbv zeta. unfold single_flight_at.
  split; [reflexivity|].
  split; [vm_compute; discriminate|].
  split; [vm_compute; reflexivity|].
  split; [vm_compute; reflexivity|].
  split; [reflexivity|].
  split; [vm_compute; reflexivity|].
  vm_compute. intros H.
  repeat match goal with
         | H : le _ _ |- _ => inversion H; clear H
         end.
Qed.

(** C7: once a Credential is installed, no history of calls (failed
    refreshes included) and no passage of time uninstalls it: [hasTokens]
    still answers [true] afterwards and a Credential is still stored. *)
Theorem C7_authenticated_is_absorbing (evs : list Event) (h : Heap) :
  fst (run hasTokens h) = Normal true ->
  fst (run hasTokens (run_events evs h)) = Normal true /\
  exists t, tokens (this (run_events evs h)) = Some t.
Proof.
  rewrite !hasTokens_run. cbn. intros Hh.
  destruct (run_events_heap evs h) as (_ & _ & Hn).
  destruct (tokens (this h)) as [t|] eqn:Ht; [|discriminate].
  destruct (tokens (this (run_events evs h))) as [t'|] eqn:Ht'.
  - split; [reflexivity|eauto].
  - exfalso. apply Hn; [discriminate|reflexivity].
Qed.

Lemma C7_scenario_failed_refreshes :
  fst (run hasTokens
         (run_events [Invoke Call_refreshAccessToken; Elapse 3600000;
                      Invoke Call_getValidAccessToken; Invoke Call_hasTokens]
                     Scenario.C)) = Normal true /\
  exists t,
    tokens (this (run_events [Invoke Call_refreshAccessToken; Elapse 3600000;
                              Invoke Call_getValidAccessToken; Invoke Call_hasTokens]
                             Scenario.C)) = Some t.
Proof.
  apply (C7_authenticated_is_absorbing
           [Invoke Call_refreshAccessToken; Elapse 3600000;
            Invoke Call_getValidAccessToken; Invoke Call_hasTokens]
           Scenario.C).
  reflexivity.
Defined.

(** ** The authorization URL read back *)

Lemma free_of_app (sep : ascii) (a b : string) :
  free_of sep (a ++ b) = free_of sep a && free_of sep b.
Proof.
  induction a as [|c a IH]; cbn; [reflexivity|].
  rewrite IH. apply andb_assoc.
Qed.

Lemma urlencoded_byte_free (c : ascii) :
  free_of "&" (urlencoded_byte c) = true /\ free_of "=" (urlencoded_byte c) = true.
Proof. each_byte c; split; reflexivity. Qed.

Lemma urlencoded_serialize_free (s : string) :
  free_of "&" (urlencoded_serialize s) = true /\
  free_of "=" (urlencoded_serialize s) = true.
Proof.
  induction s as [|c s [IHa IHe]]; cbn [urlencoded_serialize]; [split; reflexivity|].
  rewrite !free_of_app, IHa, IHe.
  destruct (urlencoded_byte_free c) as [-> ->]. split; reflexivity.
Qed.

Lemma plus_to_space_app (a b : string) :
  plus_to_space (a ++ b) = plus_to_space a ++ plus_to_space b.
Proof. induction a as [|c a IH]; cbn; [reflexivity|]. rewrite IH. reflexivity. Qed.

Lemma percent_decode_byte (c : ascii) (rest : string) :
  percent_decode (plus_to_space (urlencoded_byte c) ++ rest) =
  String c (percent_decode rest).
Proof. each_byte c; reflexivity. Qed.

Lemma percent_decode_serialize (s : string) :
  percent_decode (plus_to_space (urlencoded_serialize s)) = s.
Proof.
  induction s as [|c s IH]; cbn [urlencoded_serialize]; [reflexivity|].
  rewrite plus_to_space_app, percent_decode_byte, IH. reflexivity.
Qed.

Lemma split_on_free (sep : ascii) (a : string) :
  free_of sep a = true -> split_on sep a = [a].
Proof.
  induction a as [|c a IH]; cbn; [reflexivity|].
  destruct (Ascii.eqb c sep); cbn; [discriminate|].
  intros H. rewrite (IH H). reflexivity.
Qed.

Lemma split_on_app (sep : ascii) (a b : string) :
  free_of sep a = true ->
  split_on sep (a ++ String sep b) = a :: split_on sep b.
Proof.
  induction a as [|c a IH]; cbn.
  - rewrite Ascii.eqb_refl. reflexivity.
  - destruct (Ascii.eqb c sep); cbn; [discriminate|].
    intros H. rewrite (IH H). reflexivity.
Qed.

Lemma cut_at_app (sep : ascii) (a b : string) :
  free_of sep a = true ->
  cut_at sep (a ++ String sep b) = (a, b).
Proof.
  induction a as [|c a IH]; cbn.
  - rewrite Ascii.eqb_refl. reflexivity.
  - destruct (Ascii.eqb c sep); cbn; [discriminate|].
    intros H. rewrite (IH H). reflexivity.
Qed.

Lemma urlencoded_pair_free (p : string * string) :
  free_of "&" (urlencoded_pair p) = true.
Proof.
  unfold urlencoded_pair. rewrite !free_of_app.
  destruct (urlencoded_serialize_free (fst p)) as [-> _].
  destruct (urlencoded_serialize_free (snd p)) as [-> _]. reflexivity.
Qed.

Lemma urlencoded_pair_nonempty (p : string * string) :
  (urlencoded_pair p =? "")%string = false.
Proof.
  unfold urlencoded_pair.
  destruct (urlencoded_serialize (fst p)); reflexivity.
Qed.

Lemma urlencoded_pair_parse (p : string * string) :
  (percent_decode (plus_to_space (fst (cut_at "=" (urlencoded_pair p)))),
   percent_decode (plus_to_space (snd (cut_at "=" (urlencoded_pair p))))) = p.
Proof.
  unfold urlencoded_pair.
  change ("=" ++ urlencoded_serialize (snd p))
    with (String "=" (urlencoded_serialize (snd p))).
  rewrite cut_at_app by apply urlencoded_serialize_free.
  cbn [fst snd]. rewrite !percent_decode_serialize.
  destruct p; reflexivity.
Qed.

(** What [URLSearchParams] writes, the parser reads back: the same
    parameters, in the same order. *)
Lemma urlencoded_parse_toString (params : list (string * string)) :
  urlencoded_parse (URLSearchParams_toString params) = params.
Proof.
  unfold URLSearchParams_toString, urlencoded_parse.
  induction params as [|p params IH]; [reflexivity|].
  cbn [map String.concat]. fold (urlencoded_pair p).
  destruct params as [|p' params].
  - cbn [map]. rewrite split_on_free by apply urlencoded_pair_free.
    cbn [filter]. rewrite urlencoded_pair_nonempty. cbn [negb map].
    rewrite urlencoded_pair_parse. reflexivity.
  - remember (p' :: params) as ps.
    assert (E : map (fun p0 => urlencoded_serialize (fst p0) ++ "=" ++
                               urlencoded_serialize (snd p0)) ps <> [])
      by (subst ps; discriminate).
    destruct (map _ ps) as [|x xs] eqn:Em; [contradiction|].
    change ("&" ++ String.concat "&" (x :: xs))
      with (String "&" (String.concat "&" (x :: xs))).
    rewrite split_on_app by apply urlencoded_pair_free.
    cbn [filter]. rewrite urlencoded_pair_nonempty. cbn [negb map].
    rewrite urlencoded_pair_parse, IH. reflexivity.
Qed.


Example getAuthorizationUrl_localhost :
  fst (run (getAuthorizationUrl "http://localhost:3000/callback" None) Scenario.D) =
  Normal ("https://www.strava.com/oauth/authorize?client_id=12345"
          ++ "&redirect_uri=http%3A%2F%2Flocalhost%3A3000%2Fcallback"
          ++ "&response_type=code"
          ++ "&scope=read%2Cactivity%3Aread_all%2Cactivity%3Awrite%2Cprofile%3Aread_all").
Proof. reflexivity. Qed.

(** C9: the client identity given to the constructor is never changed:
    after any history of calls, in any world, [clientId] and [clientSecret]
    are the constructor's arguments. *)
Theorem C9_client_identity_is_immutable
        (id secret : string) (w : World) (evs : list Event) :
  let h := run_events evs {| this := new_StravaAuth id secret; world := w |} in
  clientId (this h) = id /\ clientSecret (this h) = secret.
Proof.
  destruct (run_events_heap evs {| this := new_StravaAuth id secret; world := w |})
    as (Hc & Hs & _).
  cbn in *. split; assumption.
Qed.

(** C10: [setTokens] installs exactly the triple it is given, whatever the
    triple (an expiry in the past included), sends nothing, and [hasTokens]
    answers [true] afterwards; a [getValidAccessToken] that follows on an
    expired triple sends the refresh exchange for that triple, and if it
    fails, it is not with the no-credential error. *)
Theorem C10_setTokens_installs_unchecked
        (a r : string) (e : Z) (h : Heap) :
  let t := {| accessToken := a; refreshToken := r; expiresAt := e |} in
  let h1 := snd (run (setTokens a r e) h) in
  fst (run (setTokens a r e) h) = Normal tt /\
  tokens (this h1) = Some t /\
  world h1 = world h /\
  run hasTokens h1 = (Normal true, h1) /\
  (e <= now_seconds (world h) ->
   let result := run getValidAccessToken h1 in
   sent (world (snd result)) = (sent (world h) ++ [refresh_request (this h1) t])%list /\
   is_refresh (refresh_request (this h1) t) = true /\
   forall err, fst result = Throw err -> ~ NoCredentialError err).
Proof.
  intros t h1. subst h1. rewrite setTokens_run. cbn [fst snd].
  split; [reflexivity|split; [reflexivity|split; [reflexivity|split; [reflexivity|]]]].
  intros He. subst t.
  rewrite getValidAccessToken_run. cbn [with_tokens this tokens world expiresAt].
  replace (e <=? now_seconds (world h) + 300) with true
    by (symmetry; apply Z.leb_le; lia).
  rewrite refreshAccessToken_run. cbn [with_tokens this tokens world]. cbv zeta.
  split; [|split; [reflexivity|]].
  - destruct (answer _ _) as [reason|[st [d|]|st j]]; reflexivity.
  - intros err.
    destruct (answer _ _) as [reason|[st [d|]|st j]]; cbn; unfold failure_of;
      try destruct (server_message st j);
      intros Herr [Hn|Hn]; subst err; discriminate.
Qed.

Lemma C10_scenario_expired_triple :
  let h1 := snd (run (setTokens "stale" "stale-r" 1000) Scenario.D) in
  fst (run (setTokens "stale" "stale-r" 1000) Scenario.D) = Normal tt /\
  tokens (this h1) =
    Some {| accessToken := "stale"; refreshToken := "stale-r"; expiresAt := 1000 |} /\
  run hasTokens h1 = (Normal true, h1) /\
  length (sent (world (snd (run getValidAccessToken h1)))) = 1%nat.
Proof.
  destruct (C10_setTokens_installs_unchecked "stale" "stale-r" 1000 Scenario.D)
    as (Hret & Htok & _ & Hhas & Hget).
  destruct (Hget ltac:(cbn; lia)) as (Hsent & _).
  cbv zeta. split; [exact Hret|split; [exact Htok|split; [exact Hhas|]]].
  rewrite Hsent. reflexivity.
Defined.

(** * Properties of the API client *)

Lemma with_auth_same {Json : Type} (s : Client Json) : with_auth (auth s) s = s.
Proof. destruct s; reflexivity. Qed.

(** What [request] does, as a function of what [getValidAccessToken] does
    and of what the API answers. *)
Lemma request_run {Json : Type}
      (endpoint : string) (options : RequestOptions) (s : Client Json) :
  request endpoint options s =
  match run getValidAccessToken (auth s) with
  | (Throw e, h) => (Throw e, with_auth h s)
  | (Normal accessToken, h) =>
      let req := api_request endpoint options accessToken in
      let s1 := with_api_sent req (with_auth h s) in
      match api_answer (with_auth h s) req with
      | Api_rejects reason => (Throw (TypeError reason), s1)
      | Api_resolves (Api_not_ok status statusText json) =>
          (Throw (failure_of
                    (fun m => Error ("Strava API error: " ++ m
                                     ++ " (" ++ Number_toString status ++ ")"))
                    statusText json), s1)
      | Api_resolves (Api_ok _ _ None) => (Throw (SyntaxError "Unexpected token"), s1)
      | Api_resolves (Api_ok _ _ (Some v)) => (Normal v, s1)
      end
  end.
Proof.
  unfold request, client_bind, await_auth, api_fetch, api_answer, api_request.
  rewrite run_await.
  destruct (run getValidAccessToken (auth s)) as [[accessToken|e] h]; cbn; [|reflexivity].
  destruct (api_server s _ _) as [reason|[status st [v|]|status st [[|error]|]]];
    cbn; try reflexivity.
  unfold failure_of, server_message, or_else. destruct (st =? "")%string; reflexivity.
Qed.

Lemma request_usable {Json : Type} (endpoint : string) (options : RequestOptions)
      (s : Client Json) (t : StravaTokens) :
  usable s t ->
  request endpoint options s =
  let req := api_request endpoint options (accessToken t) in
  let s1 := with_api_sent req s in
  match api_answer s req with
  | Api_rejects reason => (Throw (TypeError reason), s1)
  | Api_resolves (Api_not_ok status statusText json) =>
      (Throw (failure_of
                (fun m => Error ("Strava API error: " ++ m
                                 ++ " (" ++ Number_toString status ++ ")"))
                statusText json), s1)
  | Api_resolves (Api_ok _ _ None) => (Throw (SyntaxError "Unexpected token"), s1)
  | Api_resolves (Api_ok _ _ (Some v)) => (Normal v, s1)
  end.
Proof.
  intros [Ht Hexp]. rewrite request_run.
  assert (E : run getValidAccessToken (auth s) = (Normal (accessToken t), auth s)).
  { rewrite getValidAccessToken_run, Ht.
    destruct (expiresAt t <=? now_seconds (world (auth s)) + 300) eqn:E; [|reflexivity].
    apply Z.leb_le in E. lia. }
  rewrite E, with_auth_same. reflexivity.
Qed.

(** ** [request]: which token goes out, and when nothing goes out *)

(** X1: without a Credential, [request] fails with the no-credential error of
    [getValidAccessToken] and the client is as it was: nothing was sent,
    neither to the API nor to the token endpoint. *)
Theorem request_without_credential {Json : Type}
        (endpoint : string) (options : RequestOptions) (s : Client Json) :
  tokens (this (auth s)) = None ->
  exists e, request endpoint options s = (Throw e, s) /\ NoCredentialError e.
Proof.
  intros Ht. rewrite request_run, getValidAccessToken_run, Ht, with_auth_same.
  eexists. split; [reflexivity|left; reflexivity].
Qed.

Lemma request_without_credential_scenario_D :
  exists e,
    request "/athlete" no_options
      (ClientScenario.client_of Scenario.D ClientScenario.answers_athlete)
    = (Throw e, ClientScenario.client_of Scenario.D ClientScenario.answers_athlete)
    /\ NoCredentialError e.
Proof.
  apply (request_without_credential "/athlete" no_options
           (ClientScenario.client_of Scenario.D ClientScenario.answers_athlete)).
  reflexivity.
Defined.

(** X2: when the Credential is about to expire and the refresh does not
    succeed (the exchange is rejected, answered with a non-2xx response,
    or answered with a body that is not JSON), [request] fails and sends
    nothing to the API: the stale token never leaves.  The stale
    Credential stays installed. *)
Theorem request_failed_refresh_sends_nothing {Json : Type}
        (endpoint : string) (options : RequestOptions)
        (s : Client Json) (t : StravaTokens) :
  tokens (this (auth s)) = Some t ->
  expiresAt t <= now_seconds (world (auth s)) + 300 ->
  (forall statusText d,
     answer (auth s) (refresh_request (this (auth s)) t)
     <> Resolves (Response_ok statusText (Some d))) ->
  let result := request endpoint options s in
  (exists e, fst result = Throw e) /\
  api_sent (snd result) = api_sent s /\
  tokens (this (auth (snd result))) = Some t /\
  sent (world (auth (snd result))) =
    (sent (world (auth s)) ++ [refresh_request (this (auth s)) t])%list.
Proof.
  intros Ht Hexp Hfail result. subst result.
  rewrite request_run, getValidAccessToken_run, Ht.
  apply Z.leb_le in Hexp. rewrite Hexp.
  rewrite refreshAccessToken_run, Ht. cbv zeta.
  destruct (answer (auth s) (refresh_request (this (auth s)) t))
    as [reason|[st [d|]|st j]] eqn:Hans; cbn.
  - repeat split; eauto.
  - exfalso. eapply Hfail. reflexivity.
  - repeat split; eauto.
  - repeat split; eauto.
Qed.

Lemma request_failed_refresh_scenario_C :
  let s := ClientScenario.client_of Scenario.C ClientScenario.answers_athlete in
  (exists e, fst (request "/athlete" no_options s) = Throw e) /\
  api_sent (snd (request "/athlete" no_options s)) = [] /\
  tokens (this (auth (snd (request "/athlete" no_options s)))) =
    Some (Scenario.stored (1700000000 + 60)) /\
  sent (world (auth (snd (request "/athlete" no_options s)))) =
    [refresh_request (this Scenario.C) (Scenario.stored (1700000000 + 60))].
Proof.
  apply (request_failed_refresh_sends_nothing "/athlete" no_options
           (ClientScenario.client_of Scenario.C ClientScenario.answers_athlete)
           (Scenario.stored (1700000000 + 60)) eq_refl).
  - cbn; lia.
  - intros statusText d. cbn. discriminate.
Defined.




(** X5: [request] reads the body of every ok answer as JSON, so [deleteActivity]
    too: when the API answers the DELETE with an ok response whose body is
    not JSON (an empty one, as with 204 No Content), [deleteActivity]
    fails with a SyntaxError although its one request, a DELETE of
    [/activities/id] with the stored token, has been sent. *)
Theorem deleteActivity_needs_a_json_body {Json : Type}
        (id : Z) (s : Client Json) (t : StravaTokens)
        (status : Z) (statusText : string) :
  usable s t ->
  let req := {| api_url := "https://www.strava.com/api/v3/activities/" ++ Number_toString id;
                api_method := Some "DELETE";
                api_headers := [("Authorization", "Bearer " ++ accessToken t);
                                ("Content-Type", "application/json")];
                api_body := None |} in
  api_answer s req = Api_resolves (Api_ok status statusText None) ->
  exists msg,
    deleteActivity id s = (Throw (SyntaxError msg), with_api_sent req s).
Proof.
  intros Hu req Hans. unfold deleteActivity, client_bind.
  rewrite (request_usable _ _ s t Hu). cbv zeta.
  change (api_request ("/activities/" ++ Number_toString id)
            {| opt_method := Some "DELETE"; opt_body := None |} (accessToken t))
    with req.
  rewrite Hans. eexists. reflexivity.
Qed.

Lemma deleteActivity_scenario_204 :
  exists msg,
    deleteActivity 7 (ClientScenario.client_of Scenario.A ClientScenario.answers_204) =
    (Throw (SyntaxError msg),
     with_api_sent
       {| api_url := "https://www.strava.com/api/v3/activities/7";
          api_method := Some "DELETE";
          api_headers := [("Authorization", "Bearer old");
                          ("Content-Type", "application/json")];
          api_body := None |}
       (ClientScenario.client_of Scenario.A ClientScenario.answers_204)).
Proof.
  apply (deleteActivity_needs_a_json_body 7
           (ClientScenario.client_of Scenario.A ClientScenario.answers_204)
           (Scenario.stored (1700000000 + 10000)) 204 "No Content").
  - split; [reflexivity|vm_compute; reflexivity].
  - reflexivity.
Defined.

(** ** The queries the client builds *)

Lemma URLSearchParams_set_fresh (name value : string) (params : list (string * string)) :
  ~ In name (map fst params) ->
  URLSearchParams_set name value params = (params ++ [(name, value)])%list.
Proof.
  induction params as [|[k v] params IH]; cbn; [reflexivity|].
  intros Hfresh. destruct (k =? name)%string eqn:E.
  - apply String.eqb_eq in E. exfalso. apply Hfresh. left. exact E.
  - rewrite IH; [reflexivity|]. intros Hin. apply Hfresh. right. exact Hin.
Qed.

Lemma set_if_number_fresh (name : string) (x : option Z) (params : list (string * string)) :
  ~ In name (map fst params) ->
  set_if_number name x params = (params ++ carried_number name x)%list.
Proof.
  intros Hfresh. unfold set_if_number, carried_number.
  destruct x as [n|]; [|symmetry; apply app_nil_r].
  destruct (n =? 0); [symmetry; apply app_nil_r|].
  apply URLSearchParams_set_fresh. exact Hfresh.
Qed.

Lemma set_if_string_fresh (name : string) (x : option string) (params : list (string * string)) :
  ~ In name (map fst params) ->
  set_if_string name x params = (params ++ carried_string name x)%list.
Proof.
  intros Hfresh. unfold set_if_string, carried_string.
  destruct x as [v|]; [|symmetry; apply app_nil_r].
  destruct (v =? "")%string; [symmetry; apply app_nil_r|].
  apply URLSearchParams_set_fresh. exact Hfresh.
Qed.

Lemma set_if_defined_fresh (name : string) (x : option bool) (params : list (string * string)) :
  ~ In name (map fst params) ->
  set_if_defined name (option_map Boolean_toString x) params
  = (params ++ carried_boolean name x)%list.
Proof.
  intros Hfresh. unfold set_if_defined, carried_boolean.
  destruct x as [b|]; cbn [option_map]; [|symmetry; apply app_nil_r].
  apply URLSearchParams_set_fresh. exact Hfresh.
Qed.

Lemma carried_number_keys (name : string) (x : option Z) (k : string) :
  In k (map fst (carried_number name x)) -> k = name.
Proof.
  unfold carried_number. destruct x as [n|]; [destruct (n =? 0)|]; cbn; intuition.
Qed.

Lemma carried_string_keys (name : string) (x : option string) (k : string) :
  In k (map fst (carried_string name x)) -> k = name.
Proof.
  unfold carried_string. destruct x as [v|]; [destruct (v =? "")%string|]; cbn; intuition.
Qed.

Lemma carried_boolean_keys (name : string) (x : option bool) (k : string) :
  In k (map fst (carried_boolean name x)) -> k = name.
Proof.
  unfold carried_boolean. destruct x as [b|]; cbn; intuition.
Qed.

(** A name is not among the keys carried so far. *)
Ltac fresh_key :=
  rewrite ?map_app, ?in_app_iff; cbn [map In];
  repeat match goal with
         | |- ~ _ => intros ?
         | H : _ \/ _ |- _ => destruct H
         | H : False |- _ => destruct H
         | H : In _ (map fst (carried_number _ _)) |- _ =>
             apply carried_number_keys in H; discriminate H
         | H : In _ (map fst (carried_string _ _)) |- _ =>
             apply carried_string_keys in H; discriminate H
         | H : In _ (map fst (carried_boolean _ _)) |- _ =>
             apply carried_boolean_keys in H; discriminate H
         end.

Lemma cut_at_free (sep : ascii) (a : string) :
  free_of sep a = true -> cut_at sep a = (a, "").
Proof.
  induction a as [|c a IH]; cbn; [reflexivity|].
  destruct (Ascii.eqb c sep); cbn; [discriminate|].
  intros H. rewrite (IH H). reflexivity.
Qed.

Lemma append_empty_r (s : string) : s ++ "" = s.
Proof. induction s as [|c s IH]; cbn; [reflexivity|]. rewrite IH. reflexivity. Qed.

Lemma append_assoc (a b c : string) : (a ++ b) ++ c = a ++ b ++ c.
Proof. induction a as [|x a IH]; cbn; [reflexivity|]. rewrite IH. reflexivity. Qed.

Lemma URLSearchParams_toString_empty (params : list (string * string)) :
  (URLSearchParams_toString params =? "")%string = true -> params = [].
Proof.
  destruct params as [|p params]; [reflexivity|].
  unfold URLSearchParams_toString. cbn [map String.concat].
  fold (urlencoded_pair p).
  destruct (map _ params); intros H; apply String.eqb_eq in H.
  - pose proof (urlencoded_pair_nonempty p) as E. rewrite H in E. discriminate.
  - unfold urlencoded_pair in H.
    destruct (urlencoded_serialize (fst p)); discriminate.
Qed.

(** A path without [?], followed by the optional query of some
    parameters, is a URL whose query reads back as those parameters. *)
Lemma optional_query_reads_back (path : string) (params : list (string * string)) :
  free_of "?" path = true ->
  urlencoded_parse (url_query (path ++ optional_query (URLSearchParams_toString params)))
  = params.
Proof.
  intros Hpath. unfold optional_query, url_query.
  destruct (URLSearchParams_toString params =? "")%string eqn:E.
  - apply URLSearchParams_toString_empty in E. subst params.
    rewrite append_empty_r, cut_at_free by exact Hpath. reflexivity.
  - change ("?" ++ URLSearchParams_toString params)
      with (String "?" (URLSearchParams_toString params)).
    rewrite cut_at_app by exact Hpath. apply urlencoded_parse_toString.
Qed.

Lemma free_of_String (sep c : ascii) (s : string) :
  free_of sep (String c s) = negb (Ascii.eqb c sep) && free_of sep s.
Proof. reflexivity. Qed.

(** Decimal numerals hold digits and, in front, at most a minus sign. *)
Lemma string_of_uint_free (c : ascii) (d : Decimal.uint) :
  forallb (fun digit => negb (Ascii.eqb digit c))
          ["0"; "1"; "2"; "3"; "4"; "5"; "6"; "7"; "8"; "9"]%char = true ->
  free_of c (NilEmpty.string_of_uint d) = true.
Proof.
  cbn [forallb]. rewrite !andb_true_iff.
  intros (H0 & H1 & H2 & H3 & H4 & H5 & H6 & H7 & H8 & H9 & _).
  induction d as [|d IH|d IH|d IH|d IH|d IH|d IH|d IH|d IH|d IH|d IH];
    cbn [NilEmpty.string_of_uint]; rewrite ?free_of_String, ?IH, ?andb_true_r; auto.
Qed.

Lemma Number_toString_free (c : ascii) (n : Z) :
  forallb (fun digit => negb (Ascii.eqb digit c))
          ["0"; "1"; "2"; "3"; "4"; "5"; "6"; "7"; "8"; "9"; "-"]%char = true ->
  free_of c (Number_toString n) = true.
Proof.
  intros H.
  assert (Hd : forallb (fun digit => negb (Ascii.eqb digit c))
                 ["0"; "1"; "2"; "3"; "4"; "5"; "6"; "7"; "8"; "9"]%char = true).
  { cbn [forallb] in *. rewrite !andb_true_iff in *. intuition. }
  assert (Hm : negb (Ascii.eqb "-" c) = true).
  { cbn [forallb] in H. rewrite !andb_true_iff in H. intuition. }
  assert (Hu : forall d, free_of c (NilZero.string_of_uint d) = true).
  { intros d. unfold NilZero.string_of_uint.
    destruct d; try (apply string_of_uint_free; exact Hd).
    rewrite free_of_String. cbn [forallb] in Hd. rewrite !andb_true_iff in Hd.
    destruct Hd as (H0 & _). rewrite H0. reflexivity. }
  unfold Number_toString, NilZero.string_of_int.
  destruct (Z.to_int n) as [d|d]; [apply Hu|].
  rewrite free_of_String, Hm, Hu. reflexivity.
Qed.

(** X6: [getActivities] is a [request] without options at an endpoint whose
    query reads back as exactly the parameters that were given and are not
    zero, in the order [before], [after], [page], [per_page]; a zero is
    dropped like a parameter left out, and with nothing to carry the
    endpoint has no [?] at all. *)
Theorem getActivities_query_reads_back {Json : Type} (params : option ActivitiesParams.t) :
  let given {A} (f : ActivitiesParams.t -> option A) : option A :=
    match params with Some p => f p | None => None end in
  let carried :=
    (carried_number "before" (given ActivitiesParams.before)
     ++ carried_number "after" (given ActivitiesParams.after)
     ++ carried_number "page" (given ActivitiesParams.page)
     ++ carried_number "per_page" (given ActivitiesParams.per_page))%list in
  exists endpoint,
    @getActivities Json params = request endpoint no_options /\
    urlencoded_parse (url_query endpoint) = carried /\
    match carried with
    | [] => endpoint = "/athlete/activities"
    | _ :: _ => exists query, endpoint = "/athlete/activities?" ++ query
    end.
Proof.
  intros given carried.
  assert (E : @getActivities Json params =
              request ("/athlete/activities"
                       ++ optional_query (URLSearchParams_toString carried)) no_options).
  { unfold getActivities. cbv zeta. fold (@given Z).
    rewrite (set_if_number_fresh "before") by (cbn; tauto).
    rewrite (set_if_number_fresh "after") by fresh_key.
    rewrite (set_if_number_fresh "page") by fresh_key.
    rewrite (set_if_number_fresh "per_page") by fresh_key.
    cbn [app]. subst carried. rewrite <- !app_assoc. reflexivity. }
  eexists. split; [exact E|split].
  - apply optional_query_reads_back. reflexivity.
  - unfold optional_query.
    destruct (URLSearchParams_toString carried =? "")%string eqn:Eq.
    + apply URLSearchParams_toString_empty in Eq. rewrite Eq. reflexivity.
    + destruct carried; [discriminate Eq|]. eexists. reflexivity.
Qed.

Example getActivities_drops_zero :
  @getActivities string
    (Some {| ActivitiesParams.before := Some 0;
             ActivitiesParams.after := Some 1700000000;
             ActivitiesParams.page := None;
             ActivitiesParams.per_page := Some 50 |})
  = request "/athlete/activities?after=1700000000&per_page=50" no_options.
Proof. reflexivity. Qed.

(** X7: [getSegmentLeaderboard] is a [request] without options at
    [/segments/id/leaderboard] with a query that reads back as exactly the
    filters that were given and are truthy, in the order of the source; an
    empty string and a zero are dropped like a filter left out, while
    [following] is carried whenever it is given, [false] included. *)
Theorem getSegmentLeaderboard_query_reads_back {Json : Type}
        (id : Z) (params : option LeaderboardParams.t) :
  let given {A} (f : LeaderboardParams.t -> option A) : option A :=
    match params with Some p => f p | None => None end in
  let carried :=
    (carried_string "gender"
       (option_map LeaderboardParams.Gender_toString (given LeaderboardParams.gender))
     ++ carried_string "age_group" (given LeaderboardParams.age_group)
     ++ carried_string "weight_class" (given LeaderboardParams.weight_class)
     ++ carried_boolean "following" (given LeaderboardParams.following)
     ++ carried_number "club_id" (given LeaderboardParams.club_id)
     ++ carried_string "date_range" (given LeaderboardParams.date_range)
     ++ carried_number "page" (given LeaderboardParams.page)
     ++ carried_number "per_page" (given LeaderboardParams.per_page))%list in
  exists endpoint,
    @getSegmentLeaderboard Json id params = request endpoint no_options /\
    urlencoded_parse (url_query endpoint) = carried /\
    match carried with
    | [] => endpoint = "/segments/" ++ Number_toString id ++ "/leaderboard"
    | _ :: _ =>
        exists query,
          endpoint = "/segments/" ++ Number_toString id ++ "/leaderboard?" ++ query
    end.
Proof.
  intros given carried.
  assert (E : @getSegmentLeaderboard Json id params =
              request (("/segments/" ++ Number_toString id ++ "/leaderboard")
                       ++ optional_query (URLSearchParams_toString carried)) no_options).
  { unfold getSegmentLeaderboard. cbv zeta.
    fold (@given Z). fold (@given string). fold (@given bool).
    fold (@given LeaderboardParams.Gender).
    rewrite (set_if_string_fresh "gender") by (cbn; tauto).
    rewrite (set_if_string_fresh "age_group") by fresh_key.
    rewrite (set_if_string_fresh "weight_class") by fresh_key.
    rewrite (set_if_defined_fresh "following") by fresh_key.
    rewrite (set_if_number_fresh "club_id") by fresh_key.
    rewrite (set_if_string_fresh "date_range") by fresh_key.
    rewrite (set_if_number_fresh "page") by fresh_key.
    rewrite (set_if_number_fresh "per_page") by fresh_key.
    cbn [app]. subst carried. rewrite <- !app_assoc.
    rewrite !append_assoc. cbn [append]. reflexivity. }
  eexists. split; [exact E|split].
  - apply optional_query_reads_back.
    rewrite !free_of_app, Number_toString_free by reflexivity. reflexivity.
  - unfold optional_query.
    destruct (URLSearchParams_toString carried =? "")%string eqn:Eq.
    + apply URLSearchParams_toString_empty in Eq. rewrite Eq.
      rewrite append_empty_r. cbn [append]. reflexivity.
    + destruct carried; [discriminate Eq|]. eexists.
      rewrite !append_assoc. cbn [append]. reflexivity.
Qed.

Example getSegmentLeaderboard_keeps_false :
  @getSegmentLeaderboard string 229781
    (Some {| LeaderboardParams.gender := Some LeaderboardParams.F;
             LeaderboardParams.age_group := Some "";
             LeaderboardParams.weight_class := None;
             LeaderboardParams.following := Some false;
             LeaderboardParams.club_id := Some 0;
             LeaderboardParams.date_range := Some "this_year";
             LeaderboardParams.page := None;
             LeaderboardParams.per_page := None |})
  = request "/segments/229781/leaderboard?gender=F&following=false&date_range=this_year"
            no_options.
Proof. reflexivity. Qed.

Lemma plus_to_space_free (s : string) :
  free_of "+" s = true -> plus_to_space s = s.
Proof.
  induction s as [|c s IH]; cbn [plus_to_space]; [reflexivity|].
  rewrite free_of_String, andb_true_iff. intros [Hc Hs].
  rewrite (IH Hs). destruct (Ascii.eqb c "+"); [discriminate Hc|reflexivity].
Qed.

Lemma percent_decode_free (s : string) :
  free_of "%" s = true -> percent_decode s = s.
Proof.
  induction s as [|c s IH]; cbn [percent_decode]; [reflexivity|].
  rewrite free_of_String, andb_true_iff. intros [Hc Hs].
  rewrite (IH Hs). destruct (Ascii.eqb c "%"); [discriminate Hc|reflexivity].
Qed.

Lemma raw_safe_spec (s : string) :
  raw_safe s = true ->
  free_of "&" s = true /\ free_of "=" s = true /\ free_of "+" s = true /\
  free_of "%" s = true /\ free_of "#" s = true.
Proof. unfold raw_safe. rewrite !andb_true_iff. tauto. Qed.

Lemma raw_pair_parse (p : string * string) :
  raw_safe (fst p) = true -> raw_safe (snd p) = true ->
  (percent_decode (plus_to_space (fst (cut_at "=" (fst p ++ "=" ++ snd p)))),
   percent_decode (plus_to_space (snd (cut_at "=" (fst p ++ "=" ++ snd p))))) = p.
Proof.
  intros Hn Hv.
  apply raw_safe_spec in Hn. destruct Hn as (_ & Hne & Hnp & Hnc & _).
  apply raw_safe_spec in Hv. destruct Hv as (_ & _ & Hvp & Hvc & _).
  change ("=" ++ snd p) with (String "=" (snd p)).
  rewrite cut_at_app by exact Hne. cbn [fst snd].
  rewrite !plus_to_space_free, !percent_decode_free by assumption.
  destruct p; reflexivity.
Qed.

(** A query written without encoding reads back as its parameters when
    their names and values are text that can stand as it is. *)
Lemma raw_query_reads_back (params : list (string * string)) :
  Forall (fun p => raw_safe (fst p) = true /\ raw_safe (snd p) = true) params ->
  urlencoded_parse (raw_query params) = params.
Proof.
  unfold raw_query, urlencoded_parse.
  induction params as [|p params IH]; intros Hsafe; [reflexivity|].
  inversion Hsafe as [|p' params' [Hn Hv] Hrest]; subst.
  assert (Hamp : free_of "&" (fst p ++ "=" ++ snd p) = true).
  { apply raw_safe_spec in Hn. apply raw_safe_spec in Hv.
    rewrite !free_of_app. destruct Hn as (-> & _). destruct Hv as (-> & _). reflexivity. }
  assert (Hne : (fst p ++ "=" ++ snd p =? "")%string = false)
    by (destruct (fst p); reflexivity).
  cbn [map String.concat].
  destruct params as [|q params].
  - cbn [map]. rewrite split_on_free by exact Hamp.
    cbn [filter]. rewrite Hne. cbn [negb map].
    rewrite raw_pair_parse by assumption. reflexivity.
  - remember (q :: params) as ps.
    assert (E : map (fun p0 => fst p0 ++ "=" ++ snd p0) ps <> [])
      by (subst ps; discriminate).
    destruct (map _ ps) as [|x xs] eqn:Em; [contradiction|].
    change ("&" ++ String.concat "&" (x :: xs))
      with (String "&" (String.concat "&" (x :: xs))).
    rewrite split_on_app by exact Hamp.
    cbn [filter]. rewrite Hne. cbn [negb map].
    rewrite raw_pair_parse by assumption. rewrite (IH Hrest). reflexivity.
Qed.

(** A safe integer prints as digits, with a minus sign at most. *)
Lemma Number_toString_raw_safe (n : Z) :
  Number_isSafeInteger n = true -> raw_safe (Number_toString n) = true.
Proof.
  intros _. unfold raw_safe. rewrite !Number_toString_free by reflexivity. reflexivity.
Qed.

Lemma paging_reads_back (path : string) (page perPage : option Z) :
  let p := match page with Some n => n | None => 1 end in
  let pp := match perPage with Some n => n | None => 30 end in
  Number_isSafeInteger p = true ->
  Number_isSafeInteger pp = true ->
  free_of "?" path = true ->
  urlencoded_parse (url_query (path ++ paging page perPage)) =
    [("page", Number_toString p); ("per_page", Number_toString pp)].
Proof.
  intros p pp Hp Hpp Hpath. unfold paging. cbv zeta. fold p. fold pp.
  change ("?page=" ++ Number_toString p ++ "&per_page=" ++ Number_toString pp)
    with (String "?" (raw_query [("page", Number_toString p);
                                 ("per_page", Number_toString pp)])).
  unfold url_query. rewrite cut_at_app by exact Hpath. cbn [snd].
  apply raw_query_reads_back.
  repeat constructor; cbn [fst snd]; try reflexivity;
    apply Number_toString_raw_safe; assumption.
Qed.

Ltac paged_method :=
  eexists; split; [reflexivity|];
  rewrite <- ?append_assoc; apply paging_reads_back; try assumption;
  rewrite ?free_of_app, ?Number_toString_free by reflexivity; reflexivity.

(** X8: the seven paged methods are [request]s without options whose query,
    written without encoding, reads back as exactly [page] and
    [per_page]: the numbers given, and 1 and 30 for those left out, when
    these are safe integers. *)
Theorem paged_methods_ask_for_page {Json : Type} (id : Z) (page perPage : option Z) :
  let p := match page with Some n => n | None => 1 end in
  let pp := match perPage with Some n => n | None => 30 end in
  Number_isSafeInteger p = true ->
  Number_isSafeInteger pp = true ->
  asks_for_page (@getActivityComments Json id page perPage) p pp /\
  asks_for_page (@getActivityKudos Json id page perPage) p pp /\
  asks_for_page (@getRoutes Json id page perPage) p pp /\
  asks_for_page (@getStarredSegments Json page perPage) p pp /\
  asks_for_page (@getAthleteClubs Json page perPage) p pp /\
  asks_for_page (@getClubMembers Json id page perPage) p pp /\
  asks_for_page (@getClubActivities Json id page perPage) p pp.
Proof.
  intros p pp Hp Hpp. subst p pp. unfold asks_for_page.
  unfold getActivityComments, getActivityKudos, getRoutes, getStarredSegments,
    getAthleteClubs, getClubMembers, getClubActivities.
  repeat split; paged_method.
Qed.

Lemma paged_methods_scenario :
  asks_for_page (@getActivityComments string 7 (Some 2) None) 2 30 /\
  asks_for_page (@getActivityKudos string 7 (Some 2) None) 2 30 /\
  asks_for_page (@getRoutes string 7 (Some 2) None) 2 30 /\
  asks_for_page (@getStarredSegments string (Some 2) None) 2 30 /\
  asks_for_page (@getAthleteClubs string (Some 2) None) 2 30 /\
  asks_for_page (@getClubMembers string 7 (Some 2) None) 2 30 /\
  asks_for_page (@getClubActivities string 7 (Some 2) None) 2 30.
Proof.
  apply (@paged_methods_ask_for_page string 7 (Some 2) None); reflexivity.
Defined.

Example getClubMembers_second_page :
  @getClubMembers string 7 (Some 2) None
  = request "/clubs/7/members?page=2&per_page=30" no_options.
Proof. reflexivity. Qed.

Lemma plain_free (c : ascii) (s : string) :
  urlencoded_safe c = false -> plain s = true -> free_of c s = true.
Proof.
  intros Hc. unfold plain.
  induction s as [|a s IH]; cbn [list_ascii_of_string forallb]; [reflexivity|].
  rewrite andb_true_iff. intros [Ha Hs].
  rewrite free_of_String, (IH Hs), andb_true_r.
  destruct (Ascii.eqb a c) eqn:E; [|reflexivity].
  apply Ascii.eqb_eq in E. subst a. rewrite Hc in Ha. discriminate.
Qed.

Lemma concat_comma_free (c : ascii) (keys : list string) :
  Ascii.eqb "," c = false ->
  Forall (fun k => free_of c k = true) keys ->
  free_of c (String.concat "," keys) = true.
Proof.
  intros Hc. induction keys as [|k keys IH]; intros Hk; [reflexivity|].
  inversion Hk as [|k' keys' Hhead Htail]; subst.
  cbn [String.concat]. destruct keys as [|k2 keys]; [exact Hhead|].
  change ("," ++ String.concat "," (k2 :: keys))
    with (String "," (String.concat "," (k2 :: keys))).
  rewrite free_of_app, free_of_String, Hhead, (IH Htail), Hc. reflexivity.
Qed.

(** X9: [getActivityStreams] writes the keys into the query as they are,
    joined by commas.  When every key is made of letters, digits and
    [*], [-], [.], [_], the query reads back as exactly [keys] and
    [key_by_type]; left out, they are the six default keys and [true]. *)
Theorem getActivityStreams_query_reads_back {Json : Type}
        (id : Z) (keys : option (list string)) (keyByType : option bool) :
  let ks := match keys with Some ks => ks | None => default_stream_keys end in
  let b := match keyByType with Some b => b | None => true end in
  Forall (fun k => plain k = true) ks ->
  exists endpoint,
    @getActivityStreams Json id keys keyByType = request endpoint no_options /\
    urlencoded_parse (url_query endpoint) =
      [("keys", String.concat "," ks); ("key_by_type", Boolean_toString b)].
Proof.
  intros ks b Hplain.
  assert (Hfree : forall c, urlencoded_safe c = false -> Ascii.eqb "," c = false ->
                            free_of c (String.concat "," ks) = true).
  { intros c Hc Hcomma. apply concat_comma_free; [exact Hcomma|].
    revert Hplain. apply Forall_impl. intros k. apply plain_free. exact Hc. }
  eexists. split; [reflexivity|]. cbv zeta. fold ks. fold b.
  set (path := "/activities/" ++ Number_toString id ++ "/streams").
  replace ("/activities/" ++ Number_toString id ++ "/streams?keys="
           ++ String.concat "," ks ++ "&key_by_type=" ++ Boolean_toString b)
    with (path ++ String "?" (raw_query [("keys", String.concat "," ks);
                                         ("key_by_type", Boolean_toString b)])).
  - unfold url_query. rewrite cut_at_app.
    + cbn [snd]. apply raw_query_reads_back.
      repeat constructor; cbn [fst snd]; try reflexivity.
      * unfold raw_safe. rewrite !Hfree by reflexivity. reflexivity.
      * destruct b; reflexivity.
    + subst path. rewrite !free_of_app, Number_toString_free by reflexivity. reflexivity.
  - subst path. unfold raw_query. cbn [map String.concat fst snd].
    rewrite ?append_assoc. cbn [append]. rewrite ?append_assoc. reflexivity.
Qed.

Lemma getActivityStreams_default_keys :
  exists endpoint,
    @getActivityStreams string 7 None None = request endpoint no_options /\
    urlencoded_parse (url_query endpoint) =
      [("keys", "time,latlng,distance,altitude,heartrate,watts");
       ("key_by_type", "true")].
Proof.
  apply (getActivityStreams_query_reads_back 7 None None).
  repeat constructor.
Defined.

(** * Properties of the tool layer *)

Lemma own_property_None {Json Raw : Type}
      (table : list (string * @Tool Json Raw)) (name : string) :
  own_property table name = None <-> ~ In name (map fst table).
Proof.
  induction table as [|[k tool] table IH]; cbn; [tauto|].
  destruct (own_property table name) as [later|].
  - split; [discriminate|]. intros Hn. exfalso.
    assert (Hin : In name (map fst table)).
    { destruct (in_dec string_dec name (map fst table)) as [Hin|Hout]; [exact Hin|].
      apply IH in Hout. discriminate. }
    apply Hn. right. exact Hin.
  - destruct (k =? name)%string eqn:E.
    + apply String.eqb_eq in E. split; [discriminate|]. intros Hn. exfalso. apply Hn. left. exact E.
    + apply String.eqb_neq in E. split; [|reflexivity].
      intros _ [Hk|Hin]; [contradiction|]. apply IH in Hin; [exact Hin|reflexivity].
Qed.

Lemma own_property_last {Json Raw : Type}
      (before after : list (string * @Tool Json Raw)) (name : string) (tool : Tool) :
  ~ In name (map fst after) ->
  own_property (before ++ (name, tool) :: after) name = Some tool.
Proof.
  intros Hafter. apply own_property_None in Hafter.
  induction before as [|[k other] before IH]; cbn.
  - rewrite Hafter, String.eqb_refl. reflexivity.
  - rewrite IH. reflexivity.
Qed.

(** X10: what a tool call ends in.  For a name in the table, the entry that
    counts is the last of that name: the call is that tool's, its result
    and its client state handed on as they are, and whatever its schema
    or its handler throws comes out as an [Error] whose message is
    [Tool execution failed: ] followed by the message of what was thrown;
    a call the schema rejects leaves the client untouched.  A name that
    is not in the table never touches the client: it ends in
    [Unknown tool: name], unless it names a property every object
    inherits ([constructor], [toString], and the like), which is taken
    for a tool and fails as a failed execution. *)
Theorem call_tool_outcomes {Json Raw : Type}
        (allTools : list (string * @Tool Json Raw))
        (toolName : string) (arguments : Raw) (s : Client Json) :
  let result := call_tool allTools toolName arguments s in
  (forall before tool after,
     allTools = (before ++ (toolName, tool) :: after)%list ->
     ~ In toolName (map fst after) ->
     match inputSchema tool arguments with
     | Throw e =>
         result = (Throw (Error ("Tool execution failed: " ++ Exn_message e)), s)
     | Normal validatedArgs =>
         match handler tool validatedArgs s with
         | (Normal value, s') => result = (Normal value, s')
         | (Throw e, s') =>
             result = (Throw (Error ("Tool execution failed: " ++ Exn_message e)), s')
         end
     end)
  /\
  (~ In toolName (map fst allTools) ->
   (In toolName Object_prototype_keys ->
    exists m, result = (Throw (Error ("Tool execution failed: " ++ m)), s)) /\
   (~ In toolName Object_prototype_keys ->
    result = (Throw (Error ("Unknown tool: " ++ toolName)), s))).
Proof.
  intros result. subst result. unfold call_tool. split.
  - intros before tool after -> Hafter.
    rewrite (own_property_last before after toolName tool Hafter).
    unfold client_catch, client_bind, client_throw.
    destruct (inputSchema tool arguments) as [validated|e]; [|reflexivity].
    destruct (handler tool validated s) as [[value|e] s']; reflexivity.
  - intros Hout. apply own_property_None in Hout. rewrite Hout.
    destruct (existsb (String.eqb toolName) Object_prototype_keys) eqn:Hproto.
    + split; [intros _; eexists; reflexivity|].
      intros Hnot. exfalso. apply Hnot.
      apply existsb_exists in Hproto. destruct Hproto as (k & Hin & Hk).
      apply String.eqb_eq in Hk. subst k. exact Hin.
    + split; [|intros _; reflexivity].
      intros Hin.
      assert (Ht : existsb (String.eqb toolName) Object_prototype_keys = true).
      { apply existsb_exists. exists toolName. split; [exact Hin|apply String.eqb_refl]. }
      rewrite Ht in Hproto. discriminate.
Qed.

Lemma call_tool_outcomes_scenarios :
  let s := ClientScenario.client_of Scenario.A ClientScenario.answers_athlete in
  call_tool ClientScenario.athlete_tools "get_athlete_zones" 42 s
  = (Normal {| content := [{| type := "text"; text := "{}" |}] |},
     with_api_sent (api_request "/athlete/zones" no_options "old") s)
  /\
  (exists m,
     call_tool ClientScenario.athlete_tools "constructor" 42 s
     = (Throw (Error ("Tool execution failed: " ++ m)), s))
  /\
  call_tool ClientScenario.athlete_tools "get_weather" 42 s
  = (Throw (Error "Unknown tool: get_weather"), s).
Proof.
  cbv zeta.
  pose proof (fun toolName =>
                call_tool_outcomes ClientScenario.athlete_tools toolName 42
                  (ClientScenario.client_of Scenario.A ClientScenario.answers_athlete))
    as H.
  cbv zeta in H.
  split; [|split].
  - destruct (H "get_athlete_zones") as (Hin & _).
    destruct ClientScenario.athlete_tools as [|first [|second [|third rest]]] eqn:E;
      try discriminate E.
    injection E as <- <- <- <-.
    exact (Hin [_; _] _ [] eq_refl (fun absurd => absurd)).
  - destruct (H "constructor") as (_ & Hout).
    destruct Hout as (Hproto & _).
    + cbn. intros [E|[E|[E|[]]]]; discriminate E.
    + apply Hproto. cbn. tauto.
  - destruct (H "get_weather") as (_ & Hout).
    destruct Hout as (_ & Hunknown).
    + cbn. intros [E|[E|[E|[]]]]; discriminate E.
    + apply Hunknown. cbn.
      intros Hin. repeat (destruct Hin as [E|Hin]; [discriminate E|]). exact Hin.
Defined.




Example call_tool_unknown_name :
  call_tool ClientScenario.athlete_tools "get_weather" 42
    (ClientScenario.client_of Scenario.B ClientScenario.answers_athlete)
  = (Throw (Error "Unknown tool: get_weather"),
     ClientScenario.client_of Scenario.B ClientScenario.answers_athlete).
Proof. reflexivity. Qed.

Example call_tool_inherited_name :
  exists m,
    call_tool ClientScenario.athlete_tools "toString" 42
      (ClientScenario.client_of Scenario.B ClientScenario.answers_athlete)
    = (Throw (Error ("Tool execution failed: " ++ m)),
       ClientScenario.client_of Scenario.B ClientScenario.answers_athlete).
Proof. eexists. reflexivity. Qed.

(** * More on the token store *)

(** X12: when a second call starts while the first is suspended on its
    refresh, the two refresh exchanges are the same request: both carry
    the refresh token that was stored when the first call started. *)
Theorem concurrent_refreshes_carry_the_same_refresh_token (h : Heap) (t : StravaTokens) :
  tokens (this h) = Some t ->
  expiresAt t <= now_seconds (world h) + 300 ->
  let s := run_pool [RunFirst; RunSecond] (two_callers h) in
  sent (world (heap s)) =
    (sent (world h) ++ [refresh_request (this h) t; refresh_request (this h) t])%list /\
  tokens (this (heap s)) = Some t.
Proof.
  intros Ht Hexp s. subst s.
  cbn [run_pool fold_left pool_step two_callers first second heap].
  set (h1 := snd (turn getValidAccessToken h)).
  assert (E1 : h1 = with_sent (refresh_request (this h) t) h)
    by (apply turn_getValidAccessToken_expiring; assumption).
  assert (E2 : snd (turn getValidAccessToken h1) =
               with_sent (refresh_request (this h1) t) h1).
  { apply turn_getValidAccessToken_expiring; rewrite E1; assumption. }
  rewrite E2, E1. cbn [with_sent this world sent]. rewrite <- app_assoc.
  split; [reflexivity|exact Ht].
Qed.

Lemma concurrent_refreshes_scenario_B :
  sent (world (heap (run_pool [RunFirst; RunSecond] (two_callers Scenario.B)))) =
    [refresh_request (this Scenario.B) (Scenario.stored (1700000000 + 60));
     refresh_request (this Scenario.B) (Scenario.stored (1700000000 + 60))] /\
  tokens (this (heap (run_pool [RunFirst; RunSecond] (two_callers Scenario.B)))) =
    Some (Scenario.stored (1700000000 + 60)).
Proof.
  apply (concurrent_refreshes_carry_the_same_refresh_token
           Scenario.B (Scenario.stored (1700000000 + 60)) eq_refl).
  cbn; lia.
Defined.

(** X13: calls that do not overlap share a refresh: after a call that
    refreshed an expiring Credential, a later call, made while the new
    Credential still has more than 300 seconds to live, returns the new
    token and sends nothing. *)
Theorem sequential_calls_refresh_once
        (h : Heap) (t : StravaTokens) (statusText : string)
        (d : StravaTokenResponse) (ms : Z) :
  tokens (this h) = Some t ->
  expiresAt t <= now_seconds (world h) + 300 ->
  answer h (refresh_request (this h) t) = Resolves (Response_ok statusText (Some d)) ->
  expires_at d > (Date_now (world h) + ms) / 1000 + 300 ->
  let h1 := with_elapsed ms (snd (run getValidAccessToken h)) in
  fst (run getValidAccessToken h) = Normal (access_token d) /\
  run getValidAccessToken h1 = (Normal (access_token d), h1) /\
  sent (world h1) = (sent (world h) ++ [refresh_request (this h) t])%list.
Proof.
  intros Ht Hexp Hans Hfresh h1. subst h1.
  apply Z.leb_le in Hexp.
  rewrite (getValidAccessToken_run h), Ht, Hexp, refreshAccessToken_run, Ht.
  cbv zeta. rewrite Hans. cbn [fst snd with_tokens with_sent this tokens].
  split; [reflexivity|]. split; [|reflexivity].
  rewrite getValidAccessToken_run.
  cbn [with_elapsed with_tokens with_sent this world tokens Date_now credential_of expiresAt].
  unfold now_seconds. cbn [Date_now].
  destruct (expires_at d <=? (Date_now (world h) + ms) / 1000 + 300) eqn:E.
  - apply Z.leb_le in E. lia.
  - reflexivity.
Qed.

Lemma sequential_calls_scenario_B :
  let h1 := with_elapsed 3600000 (snd (run getValidAccessToken Scenario.B)) in
  fst (run getValidAccessToken Scenario.B) = Normal "new" /\
  run getValidAccessToken h1 = (Normal "new", h1) /\
  sent (world h1) =
    [refresh_request (this Scenario.B) (Scenario.stored (1700000000 + 60))].
Proof.
  apply (sequential_calls_refresh_once
           Scenario.B (Scenario.stored (1700000000 + 60)) "OK" Scenario.payload 3600000
           eq_refl).
  - cbn; lia.
  - reflexivity.
  - vm_compute. reflexivity.
Defined.

(** * The setup script *)

(** X14: the script's own [exchangeToken] and the method of the class are the
    same exchange: for the same client identity and code they send the
    same request and fail with the same exception; where the script
    returns the token response, the class returns and installs its
    Credential, while the script leaves the object alone. *)
Theorem setup_exchange_agrees_with_class (code : string) (h : Heap) :
  let script := run (Setup.exchangeToken (clientId (this h)) (clientSecret (this h)) code) h in
  let class := run (exchangeToken code) h in
  world (snd script) = world (snd class) /\
  sent (world (snd script)) = (sent (world h) ++ [exchange_request (this h) code])%list /\
  this (snd script) = this h /\
  match fst script with
  | Normal d =>
      fst class = Normal (credential_of d) /\
      tokens (this (snd class)) = Some (credential_of d)
  | Throw e => fst class = Throw e /\ this (snd class) = this h
  end.
Proof.
  intros script class. subst script class.
  rewrite exchangeToken_run. cbv zeta.
  unfold Setup.exchangeToken, answer, exchange_request. cbn.
  destruct (server (world h) _) as [reason|[st [d|]|st [[|e]|]]]; cbn; auto.
  unfold failure_of, server_message, or_else. destruct (st =? "")%string; cbn; auto.
Qed.

(** ** The [.env] file, written and read back *)

Lemma string_rev_append_app (s acc : string) :
  string_rev_append s acc = string_rev s ++ acc.
Proof.
  unfold string_rev. revert acc.
  induction s as [|c s IH]; intros acc; cbn; [reflexivity|].
  rewrite IH, (IH (String c "")), append_assoc. reflexivity.
Qed.

Lemma string_rev_String (c : ascii) (s : string) :
  string_rev (String c s) = string_rev s ++ String c "".
Proof. unfold string_rev at 1. cbn. apply string_rev_append_app. Qed.

Lemma string_rev_app (a b : string) :
  string_rev (a ++ b) = string_rev b ++ string_rev a.
Proof.
  induction a as [|c a IH]; cbn [append].
  - change (string_rev "") with "". rewrite append_empty_r. reflexivity.
  - rewrite !string_rev_String, IH, append_assoc. reflexivity.
Qed.

Lemma string_rev_involutive (s : string) : string_rev (string_rev s) = s.
Proof.
  induction s as [|c s IH]; [reflexivity|].
  rewrite string_rev_String, string_rev_app, IH. reflexivity.
Qed.

Lemma trim_front_None (ws : list string) (fuel : nat) (s : string) :
  strip_one ws s = None -> trim_front ws fuel s = s.
Proof. intros H. destruct fuel; cbn; [reflexivity|]. rewrite H. reflexivity. Qed.

Lemma kept_by_trim_spec (v : string) :
  kept_by_trim v = true ->
  strip_one whitespace v = None /\
  strip_one whitespace_reversed (string_rev v) = None.
Proof.
  unfold kept_by_trim.
  destruct (strip_one whitespace v); [discriminate|].
  destruct (strip_one _ (string_rev v)); [discriminate|]. auto.
Qed.

Lemma trim_kept (v : string) : kept_by_trim v = true -> trim v = v.
Proof.
  intros H. apply kept_by_trim_spec in H. destruct H as [Hs He].
  unfold trim, trimStart, trimEnd.
  rewrite (trim_front_None _ _ _ Hs), (trim_front_None _ _ _ He).
  apply string_rev_involutive.
Qed.

(** A pattern that does not hold [c] cannot match across a [c]. *)
Lemma strip_prefix_across (c : ascii) (w x y : string) :
  free_of c w = true -> w <> "" ->
  strip_prefix w x = None ->
  strip_prefix w (x ++ String c y) = None.
Proof.
  revert x. induction w as [|a w IH]; intros x Hfree Hne Hx; [contradiction|].
  rewrite free_of_String, andb_true_iff in Hfree. destruct Hfree as [Ha Hw].
  destruct x as [|b x]; cbn [append strip_prefix] in *.
  - destruct (Ascii.eqb a c); [discriminate Ha|reflexivity].
  - destruct (Ascii.eqb a b); [|reflexivity].
    destruct w as [|a' w]; [discriminate Hx|].
    apply IH; [exact Hw|discriminate|exact Hx].
Qed.

Lemma strip_one_across (c : ascii) (ws : list string) (x y : string) :
  forallb (fun w => free_of c w && negb (w =? "")%string) ws = true ->
  strip_one ws x = None ->
  strip_one ws (x ++ String c y) = None.
Proof.
  induction ws as [|w ws IH]; cbn [forallb strip_one]; [reflexivity|].
  rewrite !andb_true_iff. intros [[Hfree Hne] Hrest] Hx.
  destruct (strip_prefix w x) eqn:E; [discriminate|].
  rewrite (strip_prefix_across c w x y Hfree); auto.
  intros ->. discriminate Hne.
Qed.

(** A line [key=value] whose key begins with no white space and whose
    value is kept by [trim] is kept by [trim]. *)
Lemma trim_key_value (key v : string) :
  (forall rest, strip_one whitespace (key ++ rest) = None) ->
  kept_by_trim v = true ->
  trim (key ++ "=" ++ v) = key ++ "=" ++ v.
Proof.
  intros Hkey Hv. apply kept_by_trim_spec in Hv. destruct Hv as [_ Hend].
  unfold trim, trimStart. rewrite (trim_front_None _ _ _ (Hkey _)).
  unfold trimEnd. rewrite trim_front_None; [apply string_rev_involutive|].
  change ("=" ++ v) with (String "=" v).
  rewrite string_rev_app, string_rev_String, append_assoc.
  cbn [append]. apply strip_one_across; [reflexivity|exact Hend].
Qed.

Lemma split_on_cons (sep : ascii) (s : string) :
  exists x xs, split_on sep s = x :: xs.
Proof.
  induction s as [|c s (x & xs & IH)]; cbn; [eauto|].
  destruct (Ascii.eqb c sep); [eauto|]. rewrite IH. eauto.
Qed.

Lemma concat_split_on (sep : ascii) (s : string) :
  String.concat (String sep "") (split_on sep s) = s.
Proof.
  induction s as [|c s IH]; [reflexivity|]. cbn [split_on].
  destruct (split_on_cons sep s) as (x & xs & Hs). rewrite Hs in *.
  destruct (Ascii.eqb c sep) eqn:E.
  - apply Ascii.eqb_eq in E. subst c.
    change (String.concat (String sep "") ("" :: x :: xs))
      with (String sep (String.concat (String sep "") (x :: xs))).
    rewrite IH. reflexivity.
  - destruct xs as [|x2 xs]; cbn [String.concat append] in *; rewrite IH; reflexivity.
Qed.

Lemma split_on_concat (sep : ascii) (lines : list string) :
  lines <> [] ->
  Forall (fun line => free_of sep line = true) lines ->
  split_on sep (String.concat (String sep "") lines) = lines.
Proof.
  induction lines as [|line lines IH]; intros Hne Hfree; [contradiction|].
  inversion Hfree as [|l ls Hline Hrest]; subst.
  cbn [String.concat]. destruct lines as [|line2 lines].
  - apply split_on_free. exact Hline.
  - change (String sep "" ++ String.concat (String sep "") (line2 :: lines))
      with (String sep (String.concat (String sep "") (line2 :: lines))).
    rewrite split_on_app by exact Hline.
    rewrite IH; [reflexivity|discriminate|exact Hrest].
Qed.

(** What [Setup.loadExistingEnv] makes of one line [key=value]. *)
Lemma loadExistingEnv_line_key_value (env : list (string * string)) (key v : string) :
  (forall rest, strip_one whitespace (key ++ rest) = None) ->
  (forall rest, startsWith "#" (key ++ rest) = false) ->
  free_of "=" key = true ->
  (key =? "")%string = false ->
  trim key = key ->
  kept_by_trim v = true ->
  Setup.loadExistingEnv_line env (key ++ "=" ++ v) = Object_set key v env.
Proof.
  intros Hstart Hhash Hfree Hne Hkey Hv. unfold Setup.loadExistingEnv_line. cbv zeta.
  rewrite (trim_key_value key v Hstart Hv).
  assert (Hline : (key ++ "=" ++ v =? "")%string = false).
  { destruct key; [discriminate Hne|reflexivity]. }
  rewrite Hline, Hhash. cbn [negb andb].
  change ("=" ++ v) with (String "=" v).
  rewrite split_on_app by exact Hfree. cbv beta iota.
  rewrite Hne, concat_split_on, Hkey, (trim_kept v Hv).
  destruct (split_on_cons "=" v) as (x & xs & ->). reflexivity.
Qed.

Lemma strip_prefix_Some (w s rest : string) :
  strip_prefix w s = Some rest -> s = w ++ rest.
Proof.
  revert s. induction w as [|a w IH]; intros s; cbn.
  - intros H. injection H as ->. reflexivity.
  - destruct s as [|b s]; [discriminate|].
    destruct (Ascii.eqb a b) eqn:E; [|discriminate].
    apply Ascii.eqb_eq in E. subst b. intros H. rewrite (IH _ H). reflexivity.
Qed.

Lemma strip_one_Some (ws : list string) (s rest : string) :
  strip_one ws s = Some rest -> exists w, s = w ++ rest.
Proof.
  induction ws as [|w ws IH]; cbn; [discriminate|].
  destruct (strip_prefix w s) as [r|] eqn:E; [|exact IH].
  intros H. injection H as ->. exists w. apply strip_prefix_Some. exact E.
Qed.

Lemma trim_front_suffix (ws : list string) (fuel : nat) (s : string) :
  exists p, s = p ++ trim_front ws fuel s.
Proof.
  revert s. induction fuel as [|fuel IH]; intros s; cbn; [exists ""; reflexivity|].
  destruct (strip_one ws s) as [rest|] eqn:E; [|exists ""; reflexivity].
  destruct (strip_one_Some _ _ _ E) as (w & ->).
  destruct (IH rest) as (p & Hp). exists (w ++ p).
  rewrite append_assoc, <- Hp. reflexivity.
Qed.

Lemma trimEnd_prefix (s : string) : exists suffix, s = trimEnd s ++ suffix.
Proof.
  unfold trimEnd.
  destruct (trim_front_suffix whitespace_reversed (String.length s) (string_rev s))
    as (p & Hp).
  exists (string_rev p).
  rewrite <- string_rev_app, <- Hp. symmetry. apply string_rev_involutive.
Qed.

Lemma loadExistingEnv_line_empty (env : list (string * string)) :
  Setup.loadExistingEnv_line env "" = env.
Proof. reflexivity. Qed.

(** A line that begins with [#] leaves the environment as it is. *)
Lemma loadExistingEnv_line_comment (env : list (string * string)) (text : string) :
  Setup.loadExistingEnv_line env (String "#" text) = env.
Proof.
  unfold Setup.loadExistingEnv_line. cbv zeta.
  assert (Hstart : trimStart (String "#" text) = String "#" text).
  { unfold trimStart. apply trim_front_None. reflexivity. }
  unfold trim. rewrite Hstart.
  destruct (trimEnd_prefix (String "#" text)) as (suffix & Hs).
  destruct (trimEnd (String "#" text)) as [|c trimmed]; [reflexivity|].
  cbn [append] in Hs. injection Hs as <- _.
  reflexivity.
Qed.

Lemma free_of_rev (c : ascii) (s : string) : free_of c (string_rev s) = free_of c s.
Proof.
  induction s as [|a s IH]; [reflexivity|].
  rewrite string_rev_String, free_of_app, IH, !free_of_String. cbn [free_of].
  rewrite andb_true_r. apply andb_comm.
Qed.

Lemma strip_prefix_free (a : ascii) (w s : string) :
  free_of a s = true -> strip_prefix (String a w) s = None.
Proof.
  destruct s as [|b s]; [reflexivity|]. cbn [strip_prefix].
  rewrite free_of_String, andb_true_iff. intros [Hb _].
  rewrite Ascii.eqb_sym. destruct (Ascii.eqb b a); [discriminate|reflexivity].
Qed.

Lemma strip_one_free (ws : list string) (s : string) :
  forallb (fun w => match w with String a _ => free_of a s | EmptyString => false end) ws
  = true ->
  strip_one ws s = None.
Proof.
  induction ws as [|w ws IH]; cbn [forallb strip_one]; [reflexivity|].
  rewrite andb_true_iff. intros [Hw Hrest].
  destruct w as [|a w]; [discriminate|].
  rewrite (strip_prefix_free a w s Hw). apply IH. exact Hrest.
Qed.

Lemma Number_toString_one_line (n : Z) : Setup.one_line (Number_toString n) = true.
Proof.
  unfold Setup.one_line. rewrite (Number_toString_free LF) by reflexivity.
  rewrite andb_true_r. unfold kept_by_trim.
  rewrite strip_one_free.
  - rewrite strip_one_free; [reflexivity|].
    unfold whitespace_reversed. cbn [forallb].
    rewrite !free_of_rev, !Number_toString_free by reflexivity. reflexivity.
  - unfold whitespace. cbn [forallb].
    rewrite !Number_toString_free by reflexivity. reflexivity.
Qed.

(** X15: what the setup script saves, it finds again at its next run:
    [loadExistingEnv] reads the file [writeEnvFile] wrote for [main] as
    exactly the five variables, with their values, whenever the client
    identity and the two tokens hold no line feed and neither begin nor
    end with white space, and the scope holds no line feed.  The scope,
    written as a comment, is not among them. *)
Theorem env_file_reads_back
        (clientId clientSecret : string) (tokens : StravaTokenResponse) (scope : string) :
  Setup.one_line clientId = true ->
  Setup.one_line clientSecret = true ->
  Setup.one_line (access_token tokens) = true ->
  Setup.one_line (refresh_token tokens) = true ->
  free_of LF scope = true ->
  Setup.loadExistingEnv (Some (Setup.writeEnvFile (Setup.saved_env clientId clientSecret tokens scope)))
  = [("STRAVA_CLIENT_ID", clientId);
     ("STRAVA_CLIENT_SECRET", clientSecret);
     ("STRAVA_ACCESS_TOKEN", access_token tokens);
     ("STRAVA_REFRESH_TOKEN", refresh_token tokens);
     ("STRAVA_EXPIRES_AT", Number_toString (expires_at tokens))].
Proof.
  intros Hid Hsecret Haccess Hrefresh Hscope.
  pose proof (Number_toString_one_line (expires_at tokens)) as Hexpires.
  unfold Setup.one_line in *. rewrite andb_true_iff in *.
  destruct Hid as [Hid Hid']. destruct Hsecret as [Hsecret Hsecret'].
  destruct Haccess as [Haccess Haccess']. destruct Hrefresh as [Hrefresh Hrefresh'].
  destruct Hexpires as [Hexpires Hexpires'].
  unfold Setup.loadExistingEnv, Setup.writeEnvFile. cbv zeta.
  cbn [Setup.saved_env Object_get String.eqb Ascii.eqb Bool.eqb template].
  rewrite split_on_concat.
  - cbn [fold_left].
    change "# Strava API Credentials" with (String "#" " Strava API Credentials").
    rewrite !loadExistingEnv_line_comment.
    change ("# STRAVA_SCOPE=" ++ ?x) with (String "#" (" STRAVA_SCOPE=" ++ x)).
    rewrite !loadExistingEnv_line_empty, loadExistingEnv_line_comment.
    change ("STRAVA_CLIENT_ID=" ++ ?v) with ("STRAVA_CLIENT_ID" ++ "=" ++ v).
    change ("STRAVA_CLIENT_SECRET=" ++ ?v) with ("STRAVA_CLIENT_SECRET" ++ "=" ++ v).
    change ("STRAVA_ACCESS_TOKEN=" ++ ?v) with ("STRAVA_ACCESS_TOKEN" ++ "=" ++ v).
    change ("STRAVA_REFRESH_TOKEN=" ++ ?v) with ("STRAVA_REFRESH_TOKEN" ++ "=" ++ v).
    change ("STRAVA_EXPIRES_AT=" ++ ?v) with ("STRAVA_EXPIRES_AT" ++ "=" ++ v).
    rewrite !loadExistingEnv_line_key_value by (assumption || reflexivity).
    cbn [Object_set Object_put String.eqb Ascii.eqb Bool.eqb]. reflexivity.
  - discriminate.
  - assert (Hs : free_of LF (or_else (Some scope) "read,activity:read_all,profile:read_all")
                 = true).
    { cbn [or_else]. destruct (scope =? "")%string; [reflexivity|exact Hscope]. }
    repeat constructor; rewrite ?free_of_app, ?Hs; cbn [free_of];
      try reflexivity; try assumption.
Qed.

Lemma env_file_reads_back_scenario :
  Setup.loadExistingEnv
    (Some (Setup.writeEnvFile
             (Setup.saved_env "12345" "s3cr3t=" Scenario.payload "read,activity:read")))
  = [("STRAVA_CLIENT_ID", "12345");
     ("STRAVA_CLIENT_SECRET", "s3cr3t=");
     ("STRAVA_ACCESS_TOKEN", "new");
     ("STRAVA_REFRESH_TOKEN", "new-r");
     ("STRAVA_EXPIRES_AT", "1700021600")].
Proof.
  apply (env_file_reads_back "12345" "s3cr3t=" Scenario.payload "read,activity:read");
    reflexivity.
Defined.

Lemma length_append (a b : string) :
  String.length (a ++ b) = (String.length a + String.length b)%nat.
Proof. induction a as [|c a IH]; cbn; [reflexivity|]. rewrite IH. reflexivity. Qed.

Lemma string_rev_length (s : string) : String.length (string_rev s) = String.length s.
Proof.
  induction s as [|c s IH]; [reflexivity|].
  rewrite string_rev_String, length_append, IH. cbn. lia.
Qed.

Lemma strip_one_shorter (ws : list string) (s rest : string) :
  forallb (fun w => negb (w =? "")%string) ws = true ->
  strip_one ws s = Some rest ->
  (String.length rest < String.length s)%nat.
Proof.
  induction ws as [|w ws IH]; cbn [forallb strip_one]; [discriminate|].
  rewrite andb_true_iff. intros [Hw Hrest].
  destruct (strip_prefix w s) as [r|] eqn:E; [|apply IH; exact Hrest].
  intros H. injection H as ->. apply strip_prefix_Some in E. subst s.
  rewrite length_append. destruct w; [discriminate Hw|]. cbn. lia.
Qed.

Lemma strip_one_empty (ws : list string) :
  forallb (fun w => negb (w =? "")%string) ws = true ->
  strip_one ws "" = None.
Proof.
  induction ws as [|w ws IH]; cbn [forallb strip_one]; [reflexivity|].
  rewrite andb_true_iff. intros [Hw Hrest].
  destruct w; [discriminate Hw|]. cbn [strip_prefix]. apply IH. exact Hrest.
Qed.

(** With fuel for every byte, [trim_front] stops only where no white
    space is in front. *)
Lemma trim_front_done (ws : list string) (fuel : nat) (s : string) :
  forallb (fun w => negb (w =? "")%string) ws = true ->
  (String.length s <= fuel)%nat ->
  strip_one ws (trim_front ws fuel s) = None.
Proof.
  intros Hws. revert s. induction fuel as [|fuel IH]; intros s Hlen; cbn [trim_front].
  - destruct s; [|cbn in Hlen; lia]. apply strip_one_empty. exact Hws.
  - destruct (strip_one ws s) as [rest|] eqn:E; [|exact E].
    apply IH. pose proof (strip_one_shorter ws s rest Hws E). lia.
Qed.

Lemma strip_prefix_longer (w p q rest : string) :
  strip_prefix w p = Some rest -> strip_prefix w (p ++ q) = Some (rest ++ q).
Proof.
  revert p. induction w as [|a w IH]; intros p; cbn.
  - intros H. injection H as ->. reflexivity.
  - destruct p as [|b p]; [discriminate|]. cbn [append].
    destruct (Ascii.eqb a b); [apply IH|discriminate].
Qed.

Lemma strip_one_shorter_None (ws : list string) (p q : string) :
  strip_one ws (p ++ q) = None -> strip_one ws p = None.
Proof.
  induction ws as [|w ws IH]; cbn [strip_one]; [reflexivity|].
  destruct (strip_prefix w p) as [rest|] eqn:E.
  - rewrite (strip_prefix_longer w p q rest E). discriminate.
  - destruct (strip_prefix w (p ++ q)); [discriminate|]. exact IH.
Qed.

(** What [trim] returns neither begins nor ends with white space. *)
Lemma kept_by_trim_trim (s : string) : kept_by_trim (trim s) = true.
Proof.
  unfold kept_by_trim, trim.
  set (t := trimStart s).
  assert (Hstart : strip_one whitespace t = None).
  { subst t. unfold trimStart. apply trim_front_done; [reflexivity|lia]. }
  destruct (trimEnd_prefix t) as (q & Hq).
  rewrite Hq in Hstart. apply strip_one_shorter_None in Hstart. rewrite Hstart.
  unfold trimEnd. rewrite string_rev_involutive.
  rewrite trim_front_done; [reflexivity|reflexivity|].
  rewrite string_rev_length. lia.
Qed.

Lemma free_of_trim (c : ascii) (s : string) :
  free_of c s = true -> free_of c (trim s) = true.
Proof.
  intros H. unfold trim.
  destruct (trim_front_suffix whitespace (String.length s) s) as (p & Hp).
  fold (trimStart s) in Hp.
  destruct (trimEnd_prefix (trimStart s)) as (q & Hq).
  rewrite Hp, Hq, !free_of_app, !andb_true_iff in H. tauto.
Qed.

Lemma split_on_parts_free (sep c : ascii) (s : string) :
  free_of c s = true ->
  Forall (fun part => free_of c part = true) (split_on sep s).
Proof.
  induction s as [|a s IH]; cbn [split_on]; [repeat constructor|].
  rewrite free_of_String, andb_true_iff. intros [Ha Hs]. specialize (IH Hs).
  destruct (Ascii.eqb a sep); [constructor; [reflexivity|exact IH]|].
  destruct (split_on sep s) as [|x xs]; [repeat constructor; rewrite free_of_String, Ha; reflexivity|].
  inversion IH; subst. constructor; [|assumption].
  rewrite free_of_String, Ha. assumption.
Qed.

Lemma split_on_lines_free (sep : ascii) (s : string) :
  Forall (fun line => free_of sep line = true) (split_on sep s).
Proof.
  induction s as [|a s IH]; cbn [split_on]; [repeat constructor|].
  destruct (Ascii.eqb a sep) eqn:E; [constructor; [reflexivity|exact IH]|].
  destruct (split_on sep s) as [|x xs]; [repeat constructor; rewrite free_of_String, E; reflexivity|].
  inversion IH; subst. constructor; [|assumption].
  rewrite free_of_String, E. assumption.
Qed.

Lemma concat_free (c : ascii) (sep : string) (parts : list string) :
  free_of c sep = true ->
  Forall (fun part => free_of c part = true) parts ->
  free_of c (String.concat sep parts) = true.
Proof.
  intros Hsep. induction parts as [|x xs IH]; intros H; [reflexivity|].
  inversion H as [|x' xs' Hx Hxs]; subst. cbn [String.concat].
  destruct xs as [|y ys]; [exact Hx|].
  rewrite !free_of_app, Hx, Hsep, (IH Hxs). reflexivity.
Qed.

Lemma Object_put_values (P : string -> Prop) (key value : string)
      (obj : list (string * string)) :
  P value ->
  Forall (fun kv => P (snd kv)) obj ->
  Forall (fun kv => P (snd kv)) (Object_put key value obj).
Proof.
  intros Hv. induction obj as [|[k v] obj IH]; intros H; cbn [Object_put].
  - repeat constructor. exact Hv.
  - inversion H; subst. destruct (k =? key)%string; constructor; auto.
Qed.

Lemma loadExistingEnv_line_values (env : list (string * string)) (line : string) :
  free_of LF line = true ->
  Forall (fun kv => Setup.one_line (snd kv) = true) env ->
  Forall (fun kv => Setup.one_line (snd kv) = true) (Setup.loadExistingEnv_line env line).
Proof.
  intros Hline Henv. unfold Setup.loadExistingEnv_line. cbv zeta.
  destruct (negb (trim line =? "")%string && negb (startsWith "#" (trim line)));
    [|exact Henv].
  pose proof (split_on_parts_free "=" LF (trim line) (free_of_trim LF line Hline)) as Hparts.
  destruct (split_on "=" (trim line)) as [|key valueParts]; [exact Henv|].
  destruct (negb (key =? "")%string && (0 <? Datatypes.length valueParts)%nat);
    [|exact Henv].
  unfold Object_set. destruct (trim key =? "__proto__")%string; [exact Henv|].
  apply (Object_put_values (fun v => Setup.one_line v = true)); [|exact Henv].
  unfold Setup.one_line. rewrite kept_by_trim_trim. cbn [andb].
  apply free_of_trim. apply concat_free; [reflexivity|].
  inversion Hparts; assumption.
Qed.

Lemma fold_loadExistingEnv_values (lines : list string) (env : list (string * string)) :
  Forall (fun line => free_of LF line = true) lines ->
  Forall (fun kv => Setup.one_line (snd kv) = true) env ->
  Forall (fun kv => Setup.one_line (snd kv) = true) (fold_left Setup.loadExistingEnv_line lines env).
Proof.
  revert env. induction lines as [|line lines IH]; intros env Hlines Henv; [exact Henv|].
  inversion Hlines; subst. cbn [fold_left]. apply IH; [assumption|].
  apply loadExistingEnv_line_values; assumption.
Qed.

(** X16: the values the setup script keeps are of the kind its file
    gives back.  Every value [loadExistingEnv] returns, whatever the
    file holds, and every answer [prompt] returns for a typed line, has
    no line feed and neither begins nor ends with white space. *)
Theorem setup_values_are_one_line (file : option string) (answer : string) :
  free_of LF answer = true ->
  Forall (fun kv => Setup.one_line (snd kv) = true) (Setup.loadExistingEnv file)
  /\ Setup.one_line (Setup.prompt answer) = true.
Proof.
  intros Hanswer. split.
  - destruct file as [content|]; [|constructor].
    unfold Setup.loadExistingEnv. apply fold_loadExistingEnv_values; [|constructor].
    apply split_on_lines_free.
  - unfold Setup.one_line, Setup.prompt.
    rewrite kept_by_trim_trim, free_of_trim by exact Hanswer. reflexivity.
Qed.

Lemma setup_values_scenario :
  free_of LF "  12345 " = true
  /\ Forall (fun kv => Setup.one_line (snd kv) = true)
            (Setup.loadExistingEnv
               (Some (" STRAVA_CLIENT_ID = 12345 " ++ String LF "# note"
                      ++ String LF "STRAVA_CLIENT_SECRET==s3cr3t ")))
  /\ Setup.one_line (Setup.prompt "  12345 ") = true.
Proof.
  split; [reflexivity|].
  apply (setup_values_are_one_line
           (Some (" STRAVA_CLIENT_ID = 12345 " ++ String LF "# note"
                  ++ String LF "STRAVA_CLIENT_SECRET==s3cr3t "))
           "  12345 ").
  reflexivity.
Defined.

Lemma main_scope_raw_safe (scopeChoice : string) :
  raw_safe (Setup.main_scope scopeChoice) = true.
Proof.
  unfold Setup.main_scope.
  destruct (scopeChoice =? "1")%string; [reflexivity|].
  destruct (scopeChoice =? "2")%string; [reflexivity|].
  destruct (scopeChoice =? "3")%string; reflexivity.
Qed.

(** X17: the authorization URL the setup script prints, written without
    any encoding, asks for what [getAuthorizationUrl] asks for with the
    redirect [http://localhost] and the chosen scope: its query reads
    back as the same four parameters, followed by [approval_prompt=auto],
    whenever the client id holds none of [&], [=], [+], [%] and [#]. *)
Theorem setup_url_agrees_with_class (scopeChoice : string) (h : Heap) :
  raw_safe (clientId (this h)) = true ->
  let scope := Setup.main_scope scopeChoice in
  exists u,
    run (getAuthorizationUrl "http://localhost" (Some scope)) h = (Normal u, h) /\
    urlencoded_parse (url_query (Setup.main_authUrl (clientId (this h)) scope))
    = (urlencoded_parse (url_query u) ++ [("approval_prompt", "auto")])%list.
Proof.
  intros Hid scope. eexists. split; [apply getAuthorizationUrl_run|].
  change (url_query (authorize_endpoint ++ "?" ++ ?q)) with q.
  rewrite urlencoded_parse_toString.
  replace (Setup.main_authUrl (clientId (this h)) scope)
    with (authorize_endpoint
          ++ String "?" (raw_query [("client_id", clientId (this h));
                                    ("redirect_uri", "http://localhost");
                                    ("response_type", "code");
                                    ("scope", scope);
                                    ("approval_prompt", "auto")])).
  - unfold url_query. rewrite cut_at_app by reflexivity.
    cbn [snd]. rewrite raw_query_reads_back; [reflexivity|].
    pose proof (main_scope_raw_safe scopeChoice) as Hscope. fold scope in Hscope.
    repeat constructor; cbn [fst snd]; try reflexivity; assumption.
  - unfold Setup.main_authUrl, raw_query, authorize_endpoint.
    cbn [map String.concat fst snd].
    rewrite ?append_assoc. cbn [append]. rewrite ?append_assoc. reflexivity.
Qed.

Lemma setup_url_scenario :
  raw_safe "12345" = true /\
  exists u,
    run (getAuthorizationUrl "http://localhost" (Some (Setup.main_scope "2"))) Scenario.D
    = (Normal u, Scenario.D) /\
    urlencoded_parse (url_query (Setup.main_authUrl "12345" (Setup.main_scope "2")))
    = (urlencoded_parse (url_query u) ++ [("approval_prompt", "auto")])%list.
Proof.
  split; [reflexivity|].
  apply (setup_url_agrees_with_class "2" Scenario.D). reflexivity.
Defined.
